(** * Schedule management system: a shallow embedding of [schedule.py]

    The development follows the Python module top to bottom: the values a
    Python attribute can hold after [json.load], the class [Event] with
    [to_dict] and [from_dict], and the class [ScheduleManager] with its
    seven methods.  [Event] instances are mutable objects that the manager
    shares with its callers, so they live in a heap and the manager's
    [events] attribute is a list of references. *)

From Stdlib Require Import ZArith String Ascii Sorted Lia.
From stdpp Require Import base option list gmap strings pretty.

Set Warnings "-register-all".
Open Scope string_scope.
Open Scope Z_scope.
Open Scope list_scope.

(** ** Python values *)

(** The values the program stores in attributes: what [json.load] builds
    (numbers without fraction or exponent; Python floats are not
    represented).  A [dict] is an association list in insertion order; the
    keys of a dict that Python can build are pairwise distinct. *)
Inductive pyval : Type :=
| PNone
| PBool (b : bool)
| PInt (z : Z)
| PStr (s : string)
| PList (l : list pyval)
| PDict (d : list (string * pyval)).

(** The exceptions the module can meet. *)
Inductive exn : Type :=
| JSONDecodeError
| KeyError (key : string)
| TypeError
| AttributeError
| ValueError
| FileNotFoundError.

(** Outcome of an expression or call: a value, or a raised exception. *)
Inductive Res (A : Type) : Type :=
| Ok (a : A)
| Raise (e : exn).
Arguments Ok {A} a.
Arguments Raise {A} e.

Definition res_bind {A B} (r : Res A) (k : A -> Res B) : Res B :=
  match r with
  | Ok a => k a
  | Raise e => Raise e
  end.

(** [d[key]] and [d.get(key, default)] on the association list of a dict. *)
Fixpoint assoc (key : string) (d : list (string * pyval)) : option pyval :=
  match d with
  | [] => None
  | (k, v) :: d' => if String.eqb k key then Some v else assoc key d'
  end.

(** Python's [a == b] on these values.  [bool] is a subclass of [int]
    ([True == 1]); lists compare element by element; dicts compare as
    mappings, whatever the insertion order. *)
Fixpoint py_eq (a b : pyval) {struct a} : bool :=
  match a, b with
  | PNone, PNone => true
  | PBool x, PBool y => Bool.eqb x y
  | PBool x, PInt y => Z.eqb (Z.b2z x) y
  | PInt x, PBool y => Z.eqb x (Z.b2z y)
  | PInt x, PInt y => Z.eqb x y
  | PStr x, PStr y => String.eqb x y
  | PList xs, PList ys =>
      (fix go (xs ys : list pyval) : bool :=
         match xs, ys with
         | [], [] => true
         | x :: xs', y :: ys' => py_eq x y && go xs' ys'
         | _, _ => false
         end) xs ys
  | PDict xs, PDict ys =>
      Nat.eqb (length xs) (length ys) &&
      (fix go (xs : list (string * pyval)) : bool :=
         match xs with
         | [] => true
         | (k, v) :: xs' =>
             match assoc k ys with
             | Some v' => py_eq v v'
             | None => false
             end && go xs'
         end) xs
  | _, _ => false
  end.

(** Python's [a < b]: numeric on [int] and [bool], by code point on [str]
    (the characters of a Rocq string are bytes, and the byte order of UTF-8
    is the code point order), lexicographic on lists, [TypeError] on every
    other pair. *)
Fixpoint py_lt (a b : pyval) {struct a} : Res bool :=
  match a, b with
  | PBool x, PBool y => Ok (Z.ltb (Z.b2z x) (Z.b2z y))
  | PBool x, PInt y => Ok (Z.ltb (Z.b2z x) y)
  | PInt x, PBool y => Ok (Z.ltb x (Z.b2z y))
  | PInt x, PInt y => Ok (Z.ltb x y)
  | PStr x, PStr y => Ok (String.ltb x y)
  | PList xs, PList ys =>
      (fix go (xs ys : list pyval) : Res bool :=
         match xs, ys with
         | [], [] => Ok false
         | [], _ :: _ => Ok true
         | _ :: _, [] => Ok false
         | x :: xs', y :: ys' => if py_eq x y then go xs' ys' else py_lt x y
         end) xs ys
  | _, _ => Raise TypeError
  end.

(** [(a1, a2) < (b1, b2)] on 2-tuples: the first position where the items
    are not [==] decides, with [<]. *)
Definition tuple_lt (a b : pyval * pyval) : Res bool :=
  if py_eq a.1 b.1
  then (if py_eq a.2 b.2 then Ok false else py_lt a.2 b.2)
  else py_lt a.1 b.1.

(** [x += 1]. *)
Definition py_add1 (x : pyval) : Res pyval :=
  match x with
  | PInt z => Ok (PInt (z + 1))
  | PBool b => Ok (PInt (Z.b2z b + 1))
  | _ => Raise TypeError
  end.

(** [for e in x]: the items of a list, the characters of a string, the keys
    of a dict; other values are not iterable. *)
Definition py_iter (x : pyval) : Res (list pyval) :=
  match x with
  | PList l => Ok l
  | PStr s => Ok (map (fun c => PStr (String c EmptyString)) (list_ascii_of_string s))
  | PDict d => Ok (map (fun kv => PStr kv.1) d)
  | _ => Raise TypeError
  end.

(** [data[key]]: subscripting with a string key raises [TypeError] on
    everything but a dict, and [KeyError] on a dict without the key. *)
Definition getitem (data : pyval) (key : string) : Res pyval :=
  match data with
  | PDict d =>
      match assoc key d with
      | Some v => Ok v
      | None => Raise (KeyError key)
      end
  | _ => Raise TypeError
  end.

(** [data.get(key, dflt)]: only dicts have a [get] attribute. *)
Definition dict_get (data : pyval) (key : string) (dflt : pyval) : Res pyval :=
  match data with
  | PDict d => Ok (default dflt (assoc key d))
  | _ => Raise AttributeError
  end.

(** [if date:] on an [Optional[str]]: [None] and the empty string are false. *)
Definition truthy (date : option string) : bool :=
  match date with
  | Some s => negb (String.eqb s "")
  | None => false
  end.

(** ** [sorted(xs, key=...)]

    [sorted] computes the keys, then sorts stably using [<] on the keys
    only.  Every stable sort returns the same list when the keys are
    mutually comparable; this one inserts from the right.  When a
    comparison raises, CPython's merge sort and this insertion sort need
    not meet it at the same moment. *)
Fixpoint insert_sorted {A K} (lt : K -> K -> Res bool) (key : A -> K)
    (x : A) (l : list A) : Res (list A) :=
  match l with
  | [] => Ok [x]
  | y :: l' =>
      res_bind (lt (key y) (key x)) (fun b =>
      if b then res_bind (insert_sorted lt key x l') (fun r => Ok (y :: r))
      else Ok (x :: y :: l'))
  end.

Fixpoint sorted {A K} (lt : K -> K -> Res bool) (key : A -> K)
    (l : list A) : Res (list A) :=
  match l with
  | [] => Ok []
  | x :: l' => res_bind (sorted lt key l') (insert_sorted lt key x)
  end.

(** ** class Event *)

Record Event : Type := mkEvent {
  title : pyval;
  date : pyval;
  time : pyval;
  description : pyval;
  id : pyval
}.

Definition set_title (v : pyval) (e : Event) : Event :=
  mkEvent v (date e) (time e) (description e) (id e).
Definition set_date (v : pyval) (e : Event) : Event :=
  mkEvent (title e) v (time e) (description e) (id e).
Definition set_time (v : pyval) (e : Event) : Event :=
  mkEvent (title e) (date e) v (description e) (id e).
Definition set_description (v : pyval) (e : Event) : Event :=
  mkEvent (title e) (date e) (time e) v (id e).
Definition set_id (v : pyval) (e : Event) : Event :=
  mkEvent (title e) (date e) (time e) (description e) v.

(** ** The world: object heap, file system, standard output *)

(** A reference to an [Event] object. *)
Abbreviation loc := nat (only parsing).

(** A file, seen through [json.load]: text that does not parse, or the
    value it parses to.  [json.dump] writes a text that parses back to the
    value dumped. *)
Inductive content : Type :=
| Malformed
| Document (v : pyval).

Inductive io : Type :=
| Write (path : string) (data : pyval)
| Print (line : string).

Record World : Type := mkWorld {
  heap : list Event;
  disk : gmap string content;
  trace : list io
}.

Definition blank : Event := mkEvent PNone PNone PNone PNone PNone.

(** The object a reference points to. *)
Definition deref (w : World) (l : loc) : Event := default blank (heap w !! l).

(** Computations: they read and change the world and may raise. *)
Definition M (A : Type) : Type := World -> Res A * World.

Definition ret {A} (a : A) : M A := fun w => (Ok a, w).
Definition bind {A B} (c : M A) (k : A -> M B) : M B :=
  fun w =>
    match c w with
    | (Ok a, w') => k a w'
    | (Raise e, w') => (Raise e, w')
    end.
Definition lift {A} (r : Res A) : M A := fun w => (r, w).

Notation "'let*' x := c 'in' k" := (bind c (fun x => k))
  (at level 10, x name, c at level 100, k at level 200).
Notation "c ;;; k" := (bind c (fun _ => k))
  (at level 100, k at level 200, right associativity).

(** [try: body except (kinds): handler]. *)
Definition try_except {A} (body : M A) (caught : exn -> bool) (handler : M A) : M A :=
  fun w =>
    match body w with
    | (Raise e, w') => if caught e then handler w' else (Raise e, w')
    | r => r
    end.

(** Object allocation and attribute assignment. *)
Definition alloc (e : Event) : M loc :=
  fun w => (Ok (length (heap w)), mkWorld (heap w ++ [e]) (disk w) (trace w)).

Definition setattr (l : loc) (f : Event -> Event) : M unit :=
  fun w => (Ok tt, mkWorld (alter f l (heap w)) (disk w) (trace w)).

Definition print (line : string) : M unit :=
  fun w => (Ok tt, mkWorld (heap w) (disk w) (trace w ++ [Print line])).

(** [with open(path, 'w') as f: json.dump(data, f, indent=2)]. *)
Definition json_dump (path : string) (data : pyval) : M unit :=
  fun w => (Ok tt, mkWorld (heap w) (<[path := Document data]> (disk w))
                           (trace w ++ [Write path data])).

(** [os.path.exists(path)]. *)
Definition path_exists (path : string) : M bool :=
  fun w => (Ok (bool_decide (is_Some (disk w !! path))), w).

(** [with open(path, 'r') as f: data = json.load(f)]. *)
Definition json_load (path : string) : M pyval :=
  fun w =>
    match disk w !! path with
    | Some (Document v) => (Ok v, w)
    | Some Malformed => (Raise JSONDecodeError, w)
    | None => (Raise FileNotFoundError, w)
    end.

(** [Event(title, date, time, description)]: the [id] is [None] until the
    manager sets it. *)
Definition Event_init (title date time description : pyval) : M loc :=
  alloc (mkEvent title date time description PNone).

Definition to_dict (e : Event) : pyval :=
  PDict [("id", id e); ("title", title e); ("date", date e);
         ("time", time e); ("description", description e)].

Definition from_dict (data : pyval) : M loc :=
  let* title := lift (getitem data "title") in
  let* date := lift (getitem data "date") in
  let* time := lift (getitem data "time") in
  let* description := lift (dict_get data "description" (PStr "")) in
  let* event := Event_init title date time description in
  let* i := lift (dict_get data "id" PNone) in
  setattr event (set_id i) ;;;
  ret event.

(** ** class ScheduleManager *)

(** The attributes of a manager.  A manager is threaded through its methods
    as a value: a method returns the manager as it has left it. *)
Record ScheduleManager : Type := mkManager {
  data_file : string;
  events : list loc;
  next_id : pyval
}.

Definition set_events (evs : list loc) (self : ScheduleManager) : ScheduleManager :=
  mkManager (data_file self) evs (next_id self).
Definition set_next_id (n : pyval) (self : ScheduleManager) : ScheduleManager :=
  mkManager (data_file self) (events self) n.

(** [self.events.remove(event)]: drops the first occurrence; [Event] defines
    no [__eq__], so items are compared by identity. *)
Fixpoint list_remove (event : loc) (evs : list loc) : Res (list loc) :=
  match evs with
  | [] => Raise ValueError
  | e :: evs' =>
      if Nat.eqb e event then Ok evs'
      else res_bind (list_remove event evs') (fun r => Ok (e :: r))
  end.

(** [[Event.from_dict(e) for e in items]]. *)
Fixpoint from_dict_all (items : list pyval) : M (list loc) :=
  match items with
  | [] => ret []
  | e :: items' =>
      let* event := from_dict e in
      let* rest := from_dict_all items' in
      ret (event :: rest)
  end.

Definition save_events (self : ScheduleManager) : M unit :=
  fun w =>
    let data := PDict [("next_id", next_id self);
                       ("events", PList (map (fun event => to_dict (deref w event))
                                             (events self)))] in
    json_dump (data_file self) data w.

(** The two exception classes of the [except] clause. *)
Definition load_caught (e : exn) : bool :=
  match e with
  | JSONDecodeError | KeyError _ => true
  | _ => false
  end.

(** The handler assigns both [events] and [next_id], so the assignment to
    [next_id] made before an exception is caught leaves no mark; when the
    exception is not caught the constructor fails and there is no manager. *)
Definition load_events (self : ScheduleManager) : M ScheduleManager :=
  let* present := path_exists (data_file self) in
  if present : bool then
    try_except
      (let* data := json_load (data_file self) in
       let* n := lift (dict_get data "next_id" (PInt 1)) in
       let self := set_next_id n self in
       let* raw := lift (dict_get data "events" (PList [])) in
       let* items := lift (py_iter raw) in
       let* evs := from_dict_all items in
       ret (set_events evs self))
      load_caught
      (print ("Warning: Could not load data from " +:+ data_file self) ;;;
       ret (set_next_id (PInt 1) (set_events [] self)))
  else ret self.

(** [ScheduleManager(data_file)]. *)
Definition ScheduleManager_init (data_file : string) : M ScheduleManager :=
  load_events (mkManager data_file [] (PInt 1)).

Definition add_event (self : ScheduleManager) (event : loc)
  : M (ScheduleManager * loc) :=
  setattr event (set_id (next_id self)) ;;;
  let* n := lift (py_add1 (next_id self)) in
  let self := set_next_id n self in
  let self := set_events (events self ++ [event]) self in
  save_events self ;;;
  ret (self, event).

(** The [for] loop of [get_event]. *)
Fixpoint get_event_loop (w : World) (event_id : Z) (evs : list loc) : option loc :=
  match evs with
  | [] => None
  | event :: evs' =>
      if py_eq (id (deref w event)) (PInt event_id) then Some event
      else get_event_loop w event_id evs'
  end.

Definition get_event (self : ScheduleManager) (event_id : Z) : M (option loc) :=
  fun w => (Ok (get_event_loop w event_id (events self)), w).

(** [if x is not None: event.attr = x]. *)
Definition assign_if_given (event : loc) (set : pyval -> Event -> Event)
    (x : option string) : M unit :=
  match x with
  | Some s => setattr event (set (PStr s))
  | None => ret tt
  end.

Definition update_event (self : ScheduleManager) (event_id : Z)
    (title date time description : option string) : M (ScheduleManager * bool) :=
  let* found := get_event self event_id in
  match found with
  | None => ret (self, false)
  | Some event =>
      assign_if_given event set_title title ;;;
      assign_if_given event set_date date ;;;
      assign_if_given event set_time time ;;;
      assign_if_given event set_description description ;;;
      save_events self ;;;
      ret (self, true)
  end.

Definition delete_event (self : ScheduleManager) (event_id : Z)
  : M (ScheduleManager * bool) :=
  let* found := get_event self event_id in
  match found with
  | Some event =>
      let* evs := lift (list_remove event (events self)) in
      let self := set_events evs self in
      save_events self ;;;
      ret (self, true)
  | None => ret (self, false)
  end.

(** The sort key of [list_events]: [(e.date, e.time)]. *)
Definition sort_key (w : World) (e : loc) : pyval * pyval :=
  (date (deref w e), time (deref w e)).

(** An [Optional[str]] argument as a Python value. *)
Definition of_optional (x : option string) : pyval :=
  match x with
  | Some s => PStr s
  | None => PNone
  end.

Definition list_events (self : ScheduleManager) (date_filter : option string)
  : M (list loc) :=
  fun w =>
    if truthy date_filter then
      (Ok (List.filter (fun e => py_eq (date (deref w e)) (of_optional date_filter))
                       (events self)), w)
    else (sorted tuple_lt (sort_key w) (events self), w).

(** ** Sequences of calls *)

(** The statements a caller can issue: construct an [Event], and the three
    mutating methods of a manager. *)
Inductive op : Type :=
| OpNew (title date time description : string)
| OpAdd (event : loc)
| OpUpdate (event_id : Z) (title date time description : option string)
| OpDelete (event_id : Z).

(** What the caller gets back; for [add_event], the returned event together
    with the [id] it carries when the call returns. *)
Inductive reply : Type :=
| RNew (event : loc)
| RAdd (event : loc) (assigned : pyval)
| RBool (b : bool).

Definition step (o : op) (self : ScheduleManager) : M (ScheduleManager * reply) :=
  match o with
  | OpNew title date time description =>
      let* e := Event_init (PStr title) (PStr date) (PStr time) (PStr description) in
      ret (self, RNew e)
  | OpAdd event =>
      let* r := add_event self event in
      fun w => (Ok (r.1, RAdd r.2 (id (deref w r.2))), w)
  | OpUpdate event_id title date time description =>
      let* r := update_event self event_id title date time description in
      ret (r.1, RBool r.2)
  | OpDelete event_id =>
      let* r := delete_event self event_id in
      ret (r.1, RBool r.2)
  end.

Fixpoint run (ops : list op) (self : ScheduleManager)
  : M (ScheduleManager * list reply) :=
  match ops with
  | [] => ret (self, [])
  | o :: ops' =>
      let* r := step o self in
      let* rs := run ops' r.1 in
      ret (rs.1, r.2 :: rs.2)
  end.

(** The ids handed out by the [add_event] calls of a run, in call order. *)
Fixpoint add_ids (rs : list reply) : list pyval :=
  match rs with
  | [] => []
  | RAdd _ i :: rs' => i :: add_ids rs'
  | _ :: rs' => add_ids rs'
  end.

(** Every [add_event] of the sequence is given an object that exists. *)
Definition op_scoped (o : op) (w : World) : bool :=
  match o with
  | OpAdd event => Nat.ltb event (List.length (heap w))
  | _ => true
  end.

(** ... and that is not in the collection at the time of the call. *)
Definition op_fresh (o : op) (self : ScheduleManager) : bool :=
  match o with
  | OpAdd event => negb (existsb (Nat.eqb event) (events self))
  | _ => true
  end.

Fixpoint all_steps (ok : op -> ScheduleManager -> World -> bool)
    (ops : list op) (self : ScheduleManager) (w : World) : bool :=
  match ops with
  | [] => true
  | o :: ops' =>
      ok o self w &&
      match step o self w with
      | (Ok r, w') => all_steps ok ops' r.1 w'
      | (Raise _, _) => true
      end
  end.


Definition admissible : list op -> ScheduleManager -> World -> bool :=
  all_steps (fun o self w => op_scoped o w && op_fresh o self).

(** ** The data-model invariant *)

(** The ids of the collection, in store order. *)
Definition ids (self : ScheduleManager) (w : World) : list pyval :=
  map (fun e => id (deref w e)) (events self).

(** Every entry of the collection carries an integer id below [next_id],
    and no two entries carry the same id. *)
Definition store_inv (self : ScheduleManager) (w : World) : Prop :=
  exists (n : Z) (ks : list Z),
    next_id self = PInt n /\
    ids self w = map PInt ks /\
    NoDup ks /\
    Forall (fun k => k < n) ks.

(** The field values of the collection, in store order. *)
Definition snapshot (self : ScheduleManager) (w : World) : list Event :=
  map (deref w) (events self).

(** ** The order of the unfiltered listing *)

Definition as_str (v : pyval) : string :=
  match v with
  | PStr s => s
  | _ => ""
  end.

Definition is_str (v : pyval) : bool :=
  match v with
  | PStr _ => true
  | _ => false
  end.

(** The [(date, time)] pair of an event whose two fields are strings. *)
Definition str_key (w : World) (e : loc) : string * string :=
  (as_str (date (deref w e)), as_str (time (deref w e))).

Definition has_str_key (w : World) (e : loc) : bool :=
  is_str (date (deref w e)) && is_str (time (deref w e)).

(** Lexicographic order on pairs of strings. *)
Definition pair_ltb (a b : string * string) : bool :=
  match String.compare a.1 b.1 with
  | Lt => true
  | Eq => String.ltb a.2 b.2
  | Gt => false
  end.

Definition pair_leb (a b : string * string) : bool :=
  match String.compare a.1 b.1 with
  | Lt => true
  | Eq => String.leb a.2 b.2
  | Gt => false
  end.

(** Stable insertion sort on string pairs. *)
Fixpoint insert_pure {A} (key : A -> string * string) (x : A) (l : list A) : list A :=
  match l with
  | [] => [x]
  | y :: l' =>
      if pair_ltb (key y) (key x) then y :: insert_pure key x l'
      else x :: y :: l'
  end.

Fixpoint sort_pure {A} (key : A -> string * string) (l : list A) : list A :=
  match l with
  | [] => []
  | x :: l' => insert_pure key x (sort_pure key l')
  end.

(** The entries of [l] whose key is [k], in the order of [l]. *)
Definition with_key {A} (key : A -> string * string) (k : string * string)
    (l : list A) : list A :=
  List.filter (fun e => bool_decide (key e = k)) l.

(** What [from_dict] builds from the items of a dict, when the three
    required keys are there. *)
Definition event_of_dict (d : list (string * pyval)) : option Event :=
  match assoc "title" d, assoc "date" d, assoc "time" d with
  | Some t, Some da, Some ti =>
      Some (mkEvent t da ti (default (PStr "") (assoc "description" d))
                    (default PNone (assoc "id" d)))
  | _, _, _ => None
  end.

Definition event_of (item : pyval) : option Event :=
  match item with
  | PDict d => event_of_dict d
  | _ => None
  end.

Definition is_dict (v : pyval) : bool :=
  match v with
  | PDict _ => true
  | _ => false
  end.

(** The document [save_events] writes. *)
Definition saved (self : ScheduleManager) (w : World) : pyval :=
  PDict [("next_id", next_id self);
         ("events", PList (map to_dict (map (deref w) (events self))))].

(** The manager a failed or absent load leaves. *)
Definition empty_store (path : string) : ScheduleManager :=
  mkManager path [] (PInt 1).

Definition warning (path : string) : io :=
  Print ("Warning: Could not load data from " +:+ path).

(** An event of the collection carries the id [event_id], for Python's [==]. *)
Definition has_id (w : World) (event_id : Z) (e : loc) : bool :=
  py_eq (id (deref w e)) (PInt event_id).

(** The world with another heap, and the world after [save_events]. *)
Definition with_heap (h : list Event) (w : World) : World :=
  mkWorld h (disk w) (trace w).

Definition persist (self : ScheduleManager) (w : World) : World :=
  mkWorld (heap w) (<[data_file self := Document (saved self w)]> (disk w))
          (trace w ++ [Write (data_file self) (saved self w)]).

(** The value of a field after [update_event]: the argument when one is
    given, the old value otherwise. *)
Definition given (x : option string) (old : pyval) : pyval :=
  match x with
  | Some s => PStr s
  | None => old
  end.

Definition updated (title' date' time' description' : option string)
    (e : Event) : Event :=
  mkEvent (given title' (title e)) (given date' (date e)) (given time' (time e))
          (given description' (description e)) (id e).

(** The integers [n], [n + 1], ..., [n + k - 1]. *)
Fixpoint count_from (n : Z) (k : nat) : list Z :=
  match k with
  | O => []
  | S k' => n :: count_from (n + 1) k'
  end.

Definition is_add (o : op) : bool :=
  match o with
  | OpAdd _ => true
  | _ => false
  end.

(** The event's date is the string [d]. *)
Definition date_is (w : World) (d : string) (e : loc) : bool :=
  match date (deref w e) with
  | PStr s => String.eqb s d
  | _ => false
  end.

(** Ascending order of the [(date, time)] string pairs. *)
Definition key_le (w : World) (a b : loc) : Prop :=
  pair_leb (str_key w a) (str_key w b) = true.

(** ** Rendering: [str()] and [Event.__str__] *)

(** Three builtins of Python that the program calls and that are taken as
    given: [str.lower], [int] applied to a string ([None] stands for
    [ValueError]) and [repr] applied to a string. *)
Class Builtins : Type := {
  str_lower : string -> string;
  int_of_str : string -> option Z;
  repr_str : string -> string
}.

(** [repr(v)]: integers in decimal, containers with their items separated by
    a comma and a space. *)
Fixpoint py_repr `{!Builtins} (v : pyval) : string :=
  match v with
  | PNone => "None"
  | PBool b => if b then "True" else "False"
  | PInt z => pretty z
  | PStr s => repr_str s
  | PList l => "[" +:+ String.concat ", " (map py_repr l) +:+ "]"
  | PDict d =>
      "{" +:+
      String.concat ", "
        (map (fun '(k, x) => repr_str k +:+ ": " +:+ py_repr x) d) +:+
      "}"
  end.

(** [str(v)], which is what an f-string puts for [{v}]: a string stands
    for itself, every other value for its [repr]. *)
Definition py_str `{!Builtins} (v : pyval) : string :=
  match v with
  | PStr s => s
  | _ => py_repr v
  end.

(** [if v:] on a value. *)
Definition py_truthy (v : pyval) : bool :=
  match v with
  | PNone => false
  | PBool b => b
  | PInt z => negb (Z.eqb z 0)
  | PStr s => negb (String.eqb s "")
  | PList l => negb (Nat.eqb (List.length l) 0)
  | PDict d => negb (Nat.eqb (List.length d) 0)
  end.

(** [Event.__str__]. *)
Definition Event_str `{!Builtins} (e : Event) : string :=
  let desc :=
    if py_truthy (description e) then " - " +:+ py_str (description e) else "" in
  "[" +:+ py_str (id e) +:+ "] " +:+ py_str (title e) +:+ " on " +:+
  py_str (date e) +:+ " at " +:+ py_str (time e) +:+ desc.

(** ** The command line: [schedule_cli.py] *)

(** How a run of the program ends: [main] returns, an exception escapes,
    or [sys.exit] is called. *)
Inductive Exit (A : Type) : Type :=
| Returned (a : A)
| Raised (e : exn)
| SystemExit (code : Z).
Arguments Returned {A} a.
Arguments Raised {A} e.
Arguments SystemExit {A} code.

Definition Proc (A : Type) : Type := World -> Exit A * World.

Definition pbind {A B} (c : Proc A) (k : A -> Proc B) : Proc B :=
  fun w =>
    match c w with
    | (Returned a, w') => k a w'
    | (Raised e, w') => (Raised e, w')
    | (SystemExit code, w') => (SystemExit code, w')
    end.

Notation "'let!' x := c 'in' k" := (pbind c (fun x => k))
  (at level 10, x name, c at level 100, k at level 200).
Notation "c ;!; k" := (pbind c (fun _ => k))
  (at level 100, k at level 200, right associativity).

(** A call into [schedule.py]. *)
Definition call {A} (c : M A) : Proc A :=
  fun w =>
    match c w with
    | (Ok a, w') => (Returned a, w')
    | (Raise e, w') => (Raised e, w')
    end.

Definition say (line : string) : Proc unit := call (print line).

Definition sys_exit {A} (code : Z) : Proc A := fun w => (SystemExit code, w).

(** [try: body except ValueError: handler]. *)
Definition except_ValueError {A} (body handler : Proc A) : Proc A :=
  fun w =>
    match body w with
    | (Raised ValueError, w') => handler w'
    | r => r
    end.

(** [int(s)]. *)
Definition py_int `{!Builtins} (s : string) : Proc Z :=
  fun w =>
    match int_of_str s with
    | Some z => (Returned z, w)
    | None => (Raised ValueError, w)
    end.

(** [print(event)]. *)
Definition say_event `{!Builtins} (prefix : string) (event : loc) : Proc unit :=
  fun w => say (prefix +:+ Event_str (deref w event)) w.

Definition nl : string := String "010"%char EmptyString.
Definition dq : string := String "034"%char EmptyString.

(** The text of [print_help]. *)
Definition help_text : string :=
  String.concat nl
    [""; "Schedule Management System - Command Line Interface";
     "";
     "Usage:";
     "    python schedule_cli.py <command> [arguments]";
     "";
     "Commands:";
     "    add <title> <date> <time> [description]";
     "        Add a new event to the schedule";
     "        Example: python schedule_cli.py add " +:+ dq +:+ "Team Meeting" +:+ dq +:+
       " 2026-01-15 14:30 " +:+ dq +:+ "Discuss project updates" +:+ dq;
     "";
     "    list [date]";
     "        List all events, optionally filtered by date";
     "        Example: python schedule_cli.py list";
     "        Example: python schedule_cli.py list 2026-01-15";
     "";
     "    show <id>";
     "        Show details of a specific event";
     "        Example: python schedule_cli.py show 1";
     "";
     "    update <id> [--title TITLE] [--date DATE] [--time TIME] [--description DESC]";
     "        Update an existing event";
     "        Example: python schedule_cli.py update 1 --title " +:+ dq +:+
       "Updated Meeting" +:+ dq +:+ " --time 15:00";
     "";
     "    delete <id>";
     "        Delete an event";
     "        Example: python schedule_cli.py delete 1";
     "";
     "    help";
     "        Show this help message";
     "";
     "Date format: YYYY-MM-DD (e.g., 2026-01-15)";
     "Time format: HH:MM (e.g., 14:30)";
     ""].

Definition print_help : Proc unit := say help_text.

(** The four optional arguments of [update]. *)
Record Options : Type := mkOptions {
  opt_title : option string;
  opt_date : option string;
  opt_time : option string;
  opt_description : option string
}.

Definition no_options : Options := mkOptions None None None None.

(** The [while] loop that reads the options of [update]; [args] is what is
    left of [sys.argv] from index [i] on.  A flag counts only when an
    argument follows it, which it then consumes. *)
Fixpoint parse_options (args : list string) (acc : Options) : Options :=
  match args with
  | [] => acc
  | a :: rest =>
      match rest with
      | [] => acc
      | x :: rest' =>
          if String.eqb a "--title" then
            parse_options rest' (mkOptions (Some x) (opt_date acc) (opt_time acc)
                                           (opt_description acc))
          else if String.eqb a "--date" then
            parse_options rest' (mkOptions (opt_title acc) (Some x) (opt_time acc)
                                           (opt_description acc))
          else if String.eqb a "--time" then
            parse_options rest' (mkOptions (opt_title acc) (opt_date acc) (Some x)
                                           (opt_description acc))
          else if String.eqb a "--description" then
            parse_options rest' (mkOptions (opt_title acc) (opt_date acc) (opt_time acc)
                                           (Some x))
          else parse_options rest acc
      end
  end.

(** [sys.argv[i]], used only below [len(sys.argv)]. *)
Definition arg (argv : list string) (i : nat) : string := nth i argv "".

Definition data_file_default : string := "schedule_data.json".

(** ["-" * 60]. *)
Definition rule : string := String.concat "" (replicate 60 "-").

Definition cmd_add `{!Builtins} (argv : list string) (manager : ScheduleManager)
  : Proc unit :=
  if Nat.ltb (List.length argv) 5 then
    say "Error: 'add' requires at least title, date, and time" ;!;
    say "Usage: python schedule_cli.py add <title> <date> <time> [description]" ;!;
    sys_exit 1
  else
    let title := arg argv 2 in
    let date := arg argv 3 in
    let time := arg argv 4 in
    let description :=
      if Nat.ltb 5 (List.length argv) then String.concat " " (drop 5 argv) else "" in
    let! event := call (Event_init (PStr title) (PStr date) (PStr time)
                                   (PStr description)) in
    let! added := call (add_event manager event) in
    say_event "Event added successfully: " added.2.

Definition cmd_list `{!Builtins} (argv : list string) (manager : ScheduleManager)
  : Proc unit :=
  let date_filter :=
    if Nat.ltb 2 (List.length argv) then Some (arg argv 2) else None in
  let! found := call (list_events manager date_filter) in
  match found with
  | [] => say "No events found"
  | _ :: _ =>
      say (nl +:+ "Scheduled Events (" +:+ pretty (List.length found) +:+ "):") ;!;
      say rule ;!;
      (fix each (l : list loc) : Proc unit :=
         match l with
         | [] => say rule
         | event :: l' => say_event "" event ;!; each l'
         end) found
  end.

Definition cmd_show `{!Builtins} (argv : list string) (manager : ScheduleManager)
  : Proc unit :=
  if Nat.ltb (List.length argv) 3 then
    say "Error: 'show' requires an event ID" ;!;
    say "Usage: python schedule_cli.py show <id>" ;!;
    sys_exit 1
  else
    except_ValueError
      (let! event_id := py_int (arg argv 2) in
       let! found := call (get_event manager event_id) in
       match found with
       | Some event =>
           fun w =>
             let e := deref w event in
             (say (nl +:+ "Event Details:") ;!;
              say ("  ID: " +:+ py_str (id e)) ;!;
              say ("  Title: " +:+ py_str (title e)) ;!;
              say ("  Date: " +:+ py_str (date e)) ;!;
              say ("  Time: " +:+ py_str (time e)) ;!;
              say ("  Description: " +:+ py_str (description e))) w
       | None =>
           say ("Error: Event with ID " +:+ pretty event_id +:+ " not found") ;!;
           sys_exit 1
       end)
      (say "Error: Event ID must be a number" ;!; sys_exit 1).

Definition cmd_update `{!Builtins} (argv : list string) (manager : ScheduleManager)
  : Proc unit :=
  if Nat.ltb (List.length argv) 3 then
    say "Error: 'update' requires an event ID" ;!;
    say ("Usage: python schedule_cli.py update <id> [--title TITLE] [--date DATE] " +:+
         "[--time TIME] [--description DESC]") ;!;
    sys_exit 1
  else
    except_ValueError
      (let! event_id := py_int (arg argv 2) in
       let o := parse_options (drop 3 argv) no_options in
       let! r := call (update_event manager event_id (opt_title o) (opt_date o)
                                    (opt_time o) (opt_description o)) in
       if r.2 : bool then
         let! found := call (get_event r.1 event_id) in
         match found with
         | Some event => say_event "Event updated successfully: " event
         | None => say "Event updated successfully: None"
         end
       else
         say ("Error: Event with ID " +:+ pretty event_id +:+ " not found") ;!;
         sys_exit 1)
      (say "Error: Event ID must be a number" ;!; sys_exit 1).

Definition cmd_delete `{!Builtins} (argv : list string) (manager : ScheduleManager)
  : Proc unit :=
  if Nat.ltb (List.length argv) 3 then
    say "Error: 'delete' requires an event ID" ;!;
    say "Usage: python schedule_cli.py delete <id>" ;!;
    sys_exit 1
  else
    except_ValueError
      (let! event_id := py_int (arg argv 2) in
       let! r := call (delete_event manager event_id) in
       if r.2 : bool then
         say ("Event " +:+ pretty event_id +:+ " deleted successfully")
       else
         say ("Error: Event with ID " +:+ pretty event_id +:+ " not found") ;!;
         sys_exit 1)
      (say "Error: Event ID must be a number" ;!; sys_exit 1).

(** [main()], with [sys.argv] as argument. *)
Definition main `{!Builtins} (argv : list string) : Proc unit :=
  if Nat.ltb (List.length argv) 2 then
    say "Error: No command provided" ;!;
    print_help ;!;
    sys_exit 1
  else
    let command := str_lower (arg argv 1) in
    let! manager := call (ScheduleManager_init data_file_default) in
    if String.eqb command "help" then print_help
    else if String.eqb command "add" then cmd_add argv manager
    else if String.eqb command "list" then cmd_list argv manager
    else if String.eqb command "show" then cmd_show argv manager
    else if String.eqb command "update" then cmd_update argv manager
    else if String.eqb command "delete" then cmd_delete argv manager
    else
      say ("Error: Unknown command '" +:+ command +:+ "'") ;!;
      print_help ;!;
      sys_exit 1.

(** The exit status the shell sees: 0 when [main] returns, the argument of
    [sys.exit], 1 when an exception escapes. *)
Definition exit_status {A} (r : Exit A) : Z :=
  match r with
  | Returned _ => 0
  | Raised _ => 1
  | SystemExit code => code
  end.

(** Values that [+= 1] accepts. *)
Definition is_number (v : pyval) : bool :=
  match v with
  | PInt _ | PBool _ => true
  | _ => false
  end.

(** A fresh manager on the file of [self] finds the state of [self]. *)
Definition reloads (self : ScheduleManager) (w : World) : Prop :=
  exists m w2,
    ScheduleManager_init (data_file self) w = (Ok m, w2) /\
    snapshot m w2 = snapshot self w /\
    next_id m = next_id self /\
    trace w2 = trace w.

(** Two events that [<] cannot order, whichever comes first. *)
Definition unorderable (w : World) (a b : loc) : Prop :=
  tuple_lt (sort_key w a) (sort_key w b) = Raise TypeError /\
  tuple_lt (sort_key w b) (sort_key w a) = Raise TypeError.

(** The four flags of [update]. *)
Definition is_flag (a : string) : bool :=
  String.eqb a "--title" || String.eqb a "--date" || String.eqb a "--time" ||
  String.eqb a "--description".

(** Argument lists that the loop reads to the end in whole steps: a flag
    with the argument after it, or one argument that is not a flag. *)
Fixpoint complete (args : list string) : bool :=
  match args with
  | [] => true
  | a :: rest =>
      if is_flag a then
        match rest with
        | [] => false
        | _ :: rest' => complete rest'
        end
      else complete rest
  end.

(** The options of [o], and those of [acc] where [o] has none. *)
Definition overlay (o acc : Options) : Options :=
  mkOptions (from_option Some (opt_title acc) (opt_title o))
            (from_option Some (opt_date acc) (opt_date o))
            (from_option Some (opt_time acc) (opt_time o))
            (from_option Some (opt_description acc) (opt_description o)).

(** What has been written: the file system and the writes of the trace. *)
Definition is_Write (x : io) : bool :=
  match x with
  | Write _ _ => true
  | Print _ => false
  end.

Definition written (w : World) : gmap string content * list io :=
  (disk w, List.filter is_Write (trace w)).

(** A command that writes nothing, however it ends. *)
Definition quiet {A} (c : Proc A) : Prop :=
  forall w, written (c w).2 = written w.


(** A stand-in for the three builtins, to run examples: it lowers ASCII
    letters, reads unsigned decimal numerals and quotes a string as it is. *)
Definition ascii_lower (c : ascii) : ascii :=
  let n := nat_of_ascii c in
  if Nat.leb 65 n && Nat.leb n 90 then ascii_of_nat (n + 32) else c.

Fixpoint lower_ascii (s : string) : string :=
  match s with
  | EmptyString => EmptyString
  | String c s' => String (ascii_lower c) (lower_ascii s')
  end.

Fixpoint digits (s : string) (acc : Z) : option Z :=
  match s with
  | EmptyString => Some acc
  | String c s' =>
      let n := nat_of_ascii c in
      if Nat.leb 48 n && Nat.leb n 57
      then digits s' (10 * acc + Z.of_nat (n - 48))
      else None
  end.

Definition sample_builtins : Builtins :=
  {| str_lower := lower_ascii;
     int_of_str := fun s => match s with
                            | EmptyString => None
                            | _ => digits s 0
                            end;
     repr_str := fun s => "'" +:+ s +:+ "'" |}.

(** The event that [add] builds from the command line. *)
Definition event_of_argv (argv : list string) (i : pyval) : Event :=
  mkEvent (PStr (arg argv 2)) (PStr (arg argv 3)) (PStr (arg argv 4))
          (PStr (String.concat " " (drop 5 argv))) i.

(** Worlds for the examples of the command line: no data file, a data
    file that does not parse, one that holds a list, and one that holds a
    store with a single event. *)
Definition no_file : World := mkWorld [] ∅ [].

Definition unreadable_file : World :=
  mkWorld [] {[data_file_default := Malformed]} [].

Definition list_file : World :=
  mkWorld [] {[data_file_default := Document (PList [])]} [].

Definition one_event_file : World :=
  mkWorld []
    {[data_file_default :=
        Document (PDict [("next_id", PInt 2);
                         ("events",
                          PList [PDict [("id", PInt 1); ("title", PStr "A");
                                        ("date", PStr "2026-01-15");
                                        ("time", PStr "14:00");
                                        ("description", PStr "")]])])]} [].

(** The lines [list] prints for a listing. *)
Definition listing_lines `{!Builtins} (w : World) (found : list loc) : list string :=
  match found with
  | [] => ["No events found"]
  | _ :: _ =>
      [nl +:+ "Scheduled Events (" +:+ pretty (List.length found) +:+ "):"; rule] ++
      map (fun e => Event_str (deref w e)) found ++ [rule]
  end.

(** * Properties *)

(** ** The example session

    Three events are added, as in [example.py]; then the listings, an
    update, a deletion and a fourth addition. *)

Definition session : list op :=
  [OpNew "Team Meeting" "2026-01-15" "14:00" "Discuss Q1 project milestones";
   OpAdd 0%nat;
   OpNew "Dentist Appointment" "2026-01-16" "10:30" "Annual checkup";
   OpAdd 1%nat;
   OpNew "Lunch with Client" "2026-01-15" "12:00" "Restaurant meeting";
   OpAdd 2%nat].

Definition after (ops : list op) : option (ScheduleManager * list reply * World) :=
  match run ops (empty_store "example_schedule.json") (mkWorld [] ∅ []) with
  | (Ok r, w) => Some (r.1, r.2, w)
  | (Raise _, _) => None
  end.

Example session_ids :
  (fun r => add_ids r.1.2) <$> after session = Some [PInt 1; PInt 2; PInt 3].
Proof. vm_compute. reflexivity. Qed.

Example session_listing :
  (fun r => (list_events r.1.1 None r.2).1) <$> after session =
  Some (Ok [2%nat; 0%nat; 1%nat]).
Proof. vm_compute. reflexivity. Qed.

Example session_filtered :
  (fun r => (list_events r.1.1 (Some "2026-01-15") r.2).1) <$> after session =
  Some (Ok [0%nat; 2%nat]).
Proof. vm_compute. reflexivity. Qed.

Example session_update :
  (fun r => deref r.2 0%nat) <$>
    after (session ++ [OpUpdate 1 None None (Some "15:00") None]) =
  Some (mkEvent (PStr "Team Meeting") (PStr "2026-01-15") (PStr "15:00")
                (PStr "Discuss Q1 project milestones") (PInt 1)).
Proof. vm_compute. reflexivity. Qed.

Example session_delete_then_add :
  (fun r => ((get_event r.1.1 2 r.2).1, add_ids r.1.2)) <$>
    after (session ++ [OpDelete 2; OpNew "D" "2026-01-17" "09:00" ""; OpAdd 3%nat]) =
  Some (Ok None, [PInt 1; PInt 2; PInt 3; PInt 4]).
Proof. vm_compute. reflexivity. Qed.

(** ** Objects and the heap *)

Lemma alter_at_end (f : Event -> Event) (h : list Event) (e : Event) :
  alter f (List.length h) (h ++ [e]) = h ++ [f e].
Proof.
  induction h as [|x h IH]; simpl; [reflexivity|].
  f_equal. exact IH.
Qed.

Lemma deref_alter_ne f l l' h d t :
  l <> l' ->
  deref (mkWorld (alter f l h) d t) l' = deref (mkWorld h d t) l'.
Proof.
  intros Hne. unfold deref; simpl.
  rewrite list_lookup_alter_ne by exact Hne. reflexivity.
Qed.

Lemma deref_alter_eq f l h d t :
  (l < List.length h)%nat ->
  deref (mkWorld (alter f l h) d t) l = f (deref (mkWorld h d t) l).
Proof.
  intros Hlt. unfold deref; simpl.
  destruct (lookup_lt_is_Some_2 h l Hlt) as [e He].
  rewrite list_lookup_alter_eq, He. reflexivity.
Qed.

Lemma deref_alter_id f l l' h d t :
  (forall e, id (f e) = id e) ->
  id (deref (mkWorld (alter f l h) d t) l') = id (deref (mkWorld h d t) l').
Proof.
  intros Hf. destruct (decide (l = l')) as [->|Hne].
  - unfold deref; simpl. rewrite list_lookup_alter_eq.
    destruct (h !! l'); simpl; [apply Hf | reflexivity].
  - rewrite deref_alter_ne by exact Hne. reflexivity.
Qed.

Lemma deref_app_l h es d t l :
  (l < List.length h)%nat ->
  deref (mkWorld (h ++ es) d t) l = deref (mkWorld h d t) l.
Proof.
  intros Hlt. unfold deref; simpl.
  rewrite lookup_app_l by exact Hlt. reflexivity.
Qed.

Lemma deref_app_r h es d t i :
  deref (mkWorld (h ++ es) d t) (List.length h + i)%nat = default blank (es !! i).
Proof.
  unfold deref; simpl. rewrite lookup_app_r by lia.
  replace (List.length h + i - List.length h)%nat with i by lia. reflexivity.
Qed.

Lemma map_deref_fresh h es d t :
  map (deref (mkWorld (h ++ es) d t)) (seq (List.length h) (List.length es)) = es.
Proof.
  revert h. induction es as [|e es IH]; intros h; simpl; [reflexivity|].
  f_equal.
  - replace (List.length h) with (List.length h + 0)%nat at 1 by lia.
    rewrite deref_app_r. reflexivity.
  - specialize (IH (h ++ [e])).
    rewrite <- app_assoc in IH; simpl in IH.
    rewrite length_app in IH; simpl in IH.
    replace (List.length h + 1)%nat with (S (List.length h)) in IH by lia.
    exact IH.
Qed.

(** ** Equality of Python values *)

Lemma py_eq_str x s : py_eq x (PStr s) = true <-> x = PStr s.
Proof.
  destruct x; simpl; split; intros H; try discriminate.
  - apply String.eqb_eq in H. congruence.
  - inversion H. apply String.eqb_refl.
Qed.

Lemma py_eq_int_int a b : py_eq (PInt a) (PInt b) = true <-> a = b.
Proof. simpl. apply Z.eqb_eq. Qed.

(** ** [Event.from_dict] *)

Lemma from_dict_ok d e w :
  event_of_dict d = Some e ->
  from_dict (PDict d) w =
  (Ok (List.length (heap w)), mkWorld (heap w ++ [e]) (disk w) (trace w)).
Proof.
  unfold event_of_dict. intros H.
  destruct (assoc "title" d) as [t|] eqn:Ht; [|discriminate].
  destruct (assoc "date" d) as [da|] eqn:Hda; [|discriminate].
  destruct (assoc "time" d) as [ti|] eqn:Hti; [|discriminate].
  inversion H; subst e; clear H.
  unfold from_dict, bind, lift, Event_init, alloc, setattr, ret; simpl.
  rewrite Ht, Hda, Hti; simpl.
  rewrite alter_at_end. reflexivity.
Qed.

Lemma from_dict_missing d w :
  event_of_dict d = None ->
  exists key,
    In key ["title"; "date"; "time"] /\ assoc key d = None /\
    from_dict (PDict d) w = (Raise (KeyError key), w).
Proof.
  unfold event_of_dict. intros H.
  unfold from_dict, bind, lift; simpl.
  destruct (assoc "title" d) as [t|] eqn:Ht.
  2:{ exists "title". split; [simpl; auto|]. split; [exact Ht|reflexivity]. }
  destruct (assoc "date" d) as [da|] eqn:Hda.
  2:{ exists "date". split; [simpl; auto|]. split; [exact Hda|reflexivity]. }
  destruct (assoc "time" d) as [ti|] eqn:Hti; [discriminate|].
  exists "time". split; [simpl; auto|]. split; [exact Hti|reflexivity].
Qed.

Lemma from_dict_not_dict v w :
  is_dict v = false -> from_dict v w = (Raise TypeError, w).
Proof. destruct v; simpl; intros H; try discriminate; reflexivity. Qed.

Lemma event_of_to_dict e : event_of (to_dict e) = Some e.
Proof. destruct e; reflexivity. Qed.

Lemma from_dict_all_ok items es w :
  Forall2 (fun item e => event_of item = Some e) items es ->
  from_dict_all items w =
  (Ok (seq (List.length (heap w)) (List.length es)),
   mkWorld (heap w ++ es) (disk w) (trace w)).
Proof.
  intros H. revert w. induction H as [|item e items es He _ IH]; intros w.
  - simpl. unfold ret. rewrite app_nil_r. destruct w; reflexivity.
  - destruct item as [| | | | |d]; try discriminate. simpl in He.
    simpl. unfold bind at 1. rewrite (from_dict_ok d e w He).
    unfold bind at 1. rewrite IH. simpl. unfold ret.
    rewrite length_app, <- app_assoc. simpl.
    replace (List.length (heap w) + 1)%nat with (S (List.length (heap w))) by lia.
    reflexivity.
Qed.

Lemma from_dict_world v w r w' :
  from_dict v w = (r, w') -> disk w' = disk w /\ trace w' = trace w.
Proof.
  destruct v as [| | | | |d]; try (intros H; inversion H; auto; fail).
  destruct (event_of_dict d) as [e|] eqn:He.
  - rewrite (from_dict_ok d e w He). intros H; inversion H; auto.
  - destruct (from_dict_missing d w He) as (k & _ & _ & Hk).
    rewrite Hk. intros H; inversion H; auto.
Qed.

Lemma from_dict_all_world items w r w' :
  from_dict_all items w = (r, w') -> disk w' = disk w /\ trace w' = trace w.
Proof.
  revert w r w'. induction items as [|item items IH]; intros w r w'; simpl.
  - intros H; inversion H; auto.
  - unfold bind at 1.
    destruct (from_dict item w) as [[l|e] w1] eqn:H1;
      apply from_dict_world in H1; destruct H1 as [Hd1 Ht1].
    + unfold bind at 1.
      destruct (from_dict_all items w1) as [[ls|e] w2] eqn:H2;
        apply IH in H2; destruct H2 as [Hd2 Ht2];
        intros H; inversion H; subst; split; congruence.
    + intros H; inversion H; subst; auto.
Qed.

Lemma from_dict_all_keyerror items w :
  Forall (fun item => is_dict item = true) items ->
  Exists (fun item => event_of item = None) items ->
  exists key w',
    from_dict_all items w = (Raise (KeyError key), w') /\
    In key ["title"; "date"; "time"].
Proof.
  intros Hall Hex. revert w.
  induction items as [|item items IH]; intros w.
  - inversion Hex.
  - inversion Hall as [|? ? Hd Hall']; subst.
    destruct item as [| | | | |d]; try discriminate.
    simpl. unfold bind at 1.
    destruct (event_of_dict d) as [e|] eqn:He.
    + rewrite (from_dict_ok d e w He).
      inversion Hex as [? ? Hbad|? ? Hex']; subst.
      { simpl in Hbad. congruence. }
      destruct (IH Hall' Hex' (mkWorld (heap w ++ [e]) (disk w) (trace w)))
        as (k & w' & Hk & Hin).
      unfold bind at 1. rewrite Hk. eauto.
    + destruct (from_dict_missing d w He) as (k & Hin & _ & Hk).
      rewrite Hk. eauto.
Qed.

(** ** [ScheduleManager.load_events] *)

(** Runs the constructor up to the point where the file is opened. *)
Ltac open_file H :=
  unfold ScheduleManager_init, load_events, bind, path_exists, try_except,
    json_load, lift;
  simpl; rewrite H; simpl; try rewrite H; simpl.

Lemma init_absent path w :
  disk w !! path = None ->
  ScheduleManager_init path w = (Ok (empty_store path), w).
Proof.
  intros H. unfold ScheduleManager_init, load_events, bind, path_exists; simpl.
  rewrite H. reflexivity.
Qed.

Lemma init_malformed path w :
  disk w !! path = Some Malformed ->
  ScheduleManager_init path w =
  (Ok (empty_store path), mkWorld (heap w) (disk w) (trace w ++ [warning path])).
Proof.
  intros H. open_file H. reflexivity.
Qed.

Lemma init_not_dict path w v :
  disk w !! path = Some (Document v) ->
  is_dict v = false ->
  ScheduleManager_init path w = (Raise AttributeError, w).
Proof.
  intros H Hv. open_file H.
  destruct v; try discriminate; reflexivity.
Qed.

Lemma init_document path w d items es :
  disk w !! path = Some (Document (PDict d)) ->
  py_iter (default (PList []) (assoc "events" d)) = Ok items ->
  Forall2 (fun item e => event_of item = Some e) items es ->
  ScheduleManager_init path w =
  (Ok (mkManager path (seq (List.length (heap w)) (List.length es))
                 (default (PInt 1) (assoc "next_id" d))),
   mkWorld (heap w ++ es) (disk w) (trace w)).
Proof.
  intros H Hit Hes. open_file H. rewrite Hit.
  rewrite (from_dict_all_ok items es w Hes). reflexivity.
Qed.

Lemma init_missing_key path w d items :
  disk w !! path = Some (Document (PDict d)) ->
  assoc "events" d = Some (PList items) ->
  Forall (fun item => is_dict item = true) items ->
  Exists (fun item => event_of item = None) items ->
  exists w',
    ScheduleManager_init path w = (Ok (empty_store path), w') /\
    disk w' = disk w /\ trace w' = trace w ++ [warning path].
Proof.
  intros H Hev Hall Hex.
  destruct (from_dict_all_keyerror items w Hall Hex) as (k & w1 & Hk & _).
  destruct (from_dict_all_world _ _ _ _ Hk) as [Hd Ht].
  open_file H. rewrite Hev; simpl. rewrite Hk; simpl.
  eexists. split; [reflexivity|]. simpl. rewrite Hd, Ht. auto.
Qed.

(** C8.  [Event.from_dict] on a mapping: when the keys [title], [date] and
    [time] are present it returns a new event carrying their values, with
    [description] taken from the mapping or the empty string, and [id] taken
    from the mapping or [None]; when one of the three keys is missing it
    raises [KeyError] for a missing key and builds nothing. *)
Theorem from_dict_contract (d : list (string * pyval)) (w : World) :
  (forall t da ti,
      assoc "title" d = Some t ->
      assoc "date" d = Some da ->
      assoc "time" d = Some ti ->
      from_dict (PDict d) w =
      (Ok (List.length (heap w)),
       mkWorld (heap w ++ [mkEvent t da ti
                                   (default (PStr "") (assoc "description" d))
                                   (default PNone (assoc "id" d))])
               (disk w) (trace w))) /\
  (assoc "title" d = None \/ assoc "date" d = None \/ assoc "time" d = None ->
   exists key,
     In key ["title"; "date"; "time"] /\ assoc key d = None /\
     from_dict (PDict d) w = (Raise (KeyError key), w)).
Proof.
  split.
  - intros t da ti Ht Hda Hti. apply from_dict_ok.
    unfold event_of_dict. rewrite Ht, Hda, Hti. reflexivity.
  - intros H. apply from_dict_missing. unfold event_of_dict.
    destruct H as [H|[H|H]]; rewrite H;
      repeat match goal with |- context [match ?x with _ => _ end] => destruct x end;
      reflexivity.
Qed.

Lemma from_dict_contract_witness :
  from_dict (PDict [("title", PStr "A"); ("date", PStr "2026-01-15");
                    ("time", PStr "14:00")]) (mkWorld [] ∅ []) =
  (Ok 0%nat,
   mkWorld [mkEvent (PStr "A") (PStr "2026-01-15") (PStr "14:00") (PStr "") PNone]
           ∅ []) /\
  exists key,
    In key ["title"; "date"; "time"] /\
    assoc key [("title", PStr "A"); ("time", PStr "14:00")] = None /\
    from_dict (PDict [("title", PStr "A"); ("time", PStr "14:00")]) (mkWorld [] ∅ []) =
    (Raise (KeyError key), mkWorld [] ∅ []).
Proof.
  split.
  - apply (proj1 (from_dict_contract
                    [("title", PStr "A"); ("date", PStr "2026-01-15");
                     ("time", PStr "14:00")] (mkWorld [] ∅ [])));
      reflexivity.
  - apply (proj2 (from_dict_contract
                    [("title", PStr "A"); ("time", PStr "14:00")]
                    (mkWorld [] ∅ []))).
    right; left; reflexivity.
Defined.

(** C10.  A file that holds valid JSON whose top level is not a mapping
    makes the constructor raise [AttributeError], which the [except] clause
    of [load_events] does not catch: no warning is printed and no store is
    built.  The documents [[1]] and [5] are two such files. *)
Theorem load_non_mapping_uncaught (path : string) (w : World) :
  (forall v,
      disk w !! path = Some (Document v) ->
      is_dict v = false ->
      ScheduleManager_init path w = (Raise AttributeError, w)) /\
  load_caught AttributeError = false /\
  (let w1 := mkWorld (heap w) (<[path := Document (PList [PInt 1])]> (disk w))
                     (trace w) in
   ScheduleManager_init path w1 = (Raise AttributeError, w1)) /\
  (let w5 := mkWorld (heap w) (<[path := Document (PInt 5)]> (disk w)) (trace w) in
   ScheduleManager_init path w5 = (Raise AttributeError, w5)).
Proof.
  split; [|split; [reflexivity|split]].
  - intros v H Hv. exact (init_not_dict path w v H Hv).
  - cbv zeta. apply (init_not_dict _ _ (PList [PInt 1])); [|reflexivity].
    simpl. apply lookup_insert_eq.
  - cbv zeta. apply (init_not_dict _ _ (PInt 5)); [|reflexivity].
    simpl. apply lookup_insert_eq.
Qed.

Lemma load_non_mapping_uncaught_witness :
  ScheduleManager_init "schedule_data.json"
    (mkWorld [] {["schedule_data.json" := Document (PList [PInt 1])]} []) =
  (Raise AttributeError,
   mkWorld [] {["schedule_data.json" := Document (PList [PInt 1])]} []).
Proof.
  apply (proj1 (load_non_mapping_uncaught "schedule_data.json"
                  (mkWorld [] {["schedule_data.json" := Document (PList [PInt 1])]} []))
               (PList [PInt 1])).
  - reflexivity.
  - reflexivity.
Defined.

(** C4.  Construction of a store.  No file: the store is empty with
    [next_id = 1] and nothing is printed.  A file that is not JSON, or a
    mapping whose list of events holds a mapping without [title], [date] or
    [time]: a warning is printed and the store is empty with [next_id = 1].
    A well-formed file without [next_id] gives [next_id = 1]; one without
    [events] gives the empty collection. *)
Theorem load_events_cases (path : string) (w : World) :
  (disk w !! path = None ->
   ScheduleManager_init path w = (Ok (empty_store path), w)) /\
  (disk w !! path = Some Malformed ->
   ScheduleManager_init path w =
   (Ok (empty_store path),
    mkWorld (heap w) (disk w) (trace w ++ [warning path]))) /\
  (forall d items,
      disk w !! path = Some (Document (PDict d)) ->
      assoc "events" d = Some (PList items) ->
      Forall (fun item => is_dict item = true) items ->
      Exists (fun item => event_of item = None) items ->
      exists w',
        ScheduleManager_init path w = (Ok (empty_store path), w') /\
        disk w' = disk w /\ trace w' = trace w ++ [warning path]) /\
  (forall d items es,
      disk w !! path = Some (Document (PDict d)) ->
      assoc "next_id" d = None ->
      assoc "events" d = Some (PList items) ->
      Forall2 (fun item e => event_of item = Some e) items es ->
      exists self w',
        ScheduleManager_init path w = (Ok self, w') /\
        next_id self = PInt 1 /\ snapshot self w' = es /\
        disk w' = disk w /\ trace w' = trace w) /\
  (forall d,
      disk w !! path = Some (Document (PDict d)) ->
      assoc "events" d = None ->
      ScheduleManager_init path w =
      (Ok (mkManager path [] (default (PInt 1) (assoc "next_id" d))), w)).
Proof.
  split; [apply init_absent|].
  split; [apply init_malformed|].
  split; [intros d items; apply init_missing_key|].
  split.
  - intros d items es H Hn Hev Hes.
    eexists _, _. split.
    + apply (init_document path w d items es H); [rewrite Hev; reflexivity|exact Hes].
    + rewrite Hn. unfold snapshot; simpl.
      split; [reflexivity|]. split; [apply map_deref_fresh|auto].
  - intros d H Hev.
    rewrite (init_document path w d [] [] H); [|rewrite Hev; reflexivity|constructor].
    simpl. rewrite app_nil_r. destruct w; reflexivity.
Qed.

Lemma load_events_cases_witness :
  ScheduleManager_init "s.json" (mkWorld [] ∅ []) =
  (Ok (empty_store "s.json"), mkWorld [] ∅ []) /\
  ScheduleManager_init "s.json" (mkWorld [] {["s.json" := Malformed]} []) =
  (Ok (empty_store "s.json"),
   mkWorld [] {["s.json" := Malformed]} [warning "s.json"]) /\
  (exists w',
      ScheduleManager_init "s.json"
        (mkWorld [] {["s.json" :=
                        Document (PDict [("events", PList [PDict [("title", PStr "A")]])])]}
                 []) = (Ok (empty_store "s.json"), w') /\
      disk w' = {["s.json" :=
                    Document (PDict [("events", PList [PDict [("title", PStr "A")]])])]} /\
      trace w' = [warning "s.json"]) /\
  (exists self w',
      ScheduleManager_init "s.json"
        (mkWorld [] {["s.json" := Document (PDict [("events", PList [])])]} []) =
      (Ok self, w') /\
      next_id self = PInt 1 /\ snapshot self w' = [] /\
      disk w' = {["s.json" := Document (PDict [("events", PList [])])]} /\
      trace w' = []) /\
  ScheduleManager_init "s.json"
    (mkWorld [] {["s.json" := Document (PDict [("next_id", PInt 7)])]} []) =
  (Ok (mkManager "s.json" [] (PInt 7)),
   mkWorld [] {["s.json" := Document (PDict [("next_id", PInt 7)])]} []).
Proof.
  split; [|split; [|split; [|split]]].
  - refine (proj1 (load_events_cases "s.json" (mkWorld [] ∅ [])) _).
    reflexivity.
  - refine (proj1 (proj2 (load_events_cases "s.json"
                           (mkWorld [] {["s.json" := Malformed]} []))) _).
    reflexivity.
  - refine (proj1 (proj2 (proj2 (load_events_cases "s.json"
             (mkWorld [] {["s.json" :=
                Document (PDict [("events", PList [PDict [("title", PStr "A")]])])]}
                      []))))
             [("events", PList [PDict [("title", PStr "A")]])]
             [PDict [("title", PStr "A")]] _ _ _ _).
    + reflexivity.
    + reflexivity.
    + repeat constructor.
    + constructor. reflexivity.
  - refine (proj1 (proj2 (proj2 (proj2 (load_events_cases "s.json"
             (mkWorld [] {["s.json" := Document (PDict [("events", PList [])])]} [])))))
             [("events", PList [])] [] [] _ _ _ _).
    + reflexivity.
    + reflexivity.
    + reflexivity.
    + constructor.
  - refine (proj2 (proj2 (proj2 (proj2 (load_events_cases "s.json"
             (mkWorld [] {["s.json" := Document (PDict [("next_id", PInt 7)])]} [])))))
             [("next_id", PInt 7)] _ _).
    + reflexivity.
    + reflexivity.
Defined.

(** ** [ScheduleManager.save_events] *)

Lemma save_events_world self w :
  save_events self w = (Ok tt, persist self w).
Proof.
  unfold save_events, json_dump, persist, saved. rewrite map_map. reflexivity.
Qed.

(** C3.  Saving a store and constructing a fresh one on the same file gives
    a store with the same [next_id] whose events carry, in the same order,
    the same ids, titles, dates, times and descriptions; the load prints no
    warning. *)
Theorem save_load_roundtrip (self : ScheduleManager) (w : World) :
  exists w1 self' w2,
    save_events self w = (Ok tt, w1) /\
    ScheduleManager_init (data_file self) w1 = (Ok self', w2) /\
    snapshot self' w2 = snapshot self w1 /\
    next_id self' = next_id self /\
    trace w2 = trace w1.
Proof.
  eexists _, _, _. split; [apply save_events_world|].
  split.
  - apply (init_document _ _
             [("next_id", next_id self);
              ("events", PList (map to_dict (map (deref w) (events self))))]
             (map to_dict (map (deref w) (events self)))
             (map (deref w) (events self))).
    + simpl. apply lookup_insert_eq.
    + reflexivity.
    + induction (map (deref w) (events self)) as [|e es IH]; simpl; constructor.
      * apply event_of_to_dict.
      * exact IH.
  - simpl. split; [|auto]. unfold snapshot; simpl.
    rewrite map_deref_fresh. reflexivity.
Qed.

(** ** Reading the heap *)

Lemma deref_heap w w' l : heap w = heap w' -> deref w l = deref w' l.
Proof. unfold deref. intros ->. reflexivity. Qed.

Lemma deref_persist self w l : deref (persist self w) l = deref w l.
Proof. reflexivity. Qed.

Lemma has_id_ext w w' z e :
  id (deref w e) = id (deref w' e) -> has_id w z e = has_id w' z e.
Proof. unfold has_id. intros ->. reflexivity. Qed.

(** ** [ScheduleManager.get_event] *)

Lemma get_event_loop_none w z evs :
  get_event_loop w z evs = None <-> Forall (fun e => has_id w z e = false) evs.
Proof.
  induction evs as [|e evs IH]; simpl.
  - split; [constructor|reflexivity].
  - fold (has_id w z e). destruct (has_id w z e) eqn:He.
    + split; [discriminate|]. intros H; inversion H; congruence.
    + rewrite IH. split; [constructor; assumption|].
      intros H; inversion H; assumption.
Qed.

Lemma get_event_loop_some w z evs event :
  get_event_loop w z evs = Some event <->
  exists pre post,
    evs = pre ++ event :: post /\
    Forall (fun e => has_id w z e = false) pre /\
    has_id w z event = true.
Proof.
  induction evs as [|e evs IH]; simpl.
  - split; [discriminate|]. intros (pre & post & H & _). destruct pre; discriminate.
  - fold (has_id w z e). destruct (has_id w z e) eqn:He.
    + split.
      * intros H; inversion H; subst. exists [], evs. auto.
      * intros (pre & post & H & Hpre & Hev). destruct pre as [|x pre].
        -- simpl in H. congruence.
        -- simpl in H. inversion H; subst. inversion Hpre; congruence.
    + rewrite IH. split.
      * intros (pre & post & H & Hpre & Hev). exists (e :: pre), post.
        subst. auto.
      * intros (pre & post & H & Hpre & Hev). destruct pre as [|x pre].
        -- simpl in H. inversion H; subst. congruence.
        -- simpl in H. inversion H; subst. inversion Hpre; subst.
           exists pre, post. auto.
Qed.

Lemma get_event_loop_ext w w' z evs :
  Forall (fun e => id (deref w e) = id (deref w' e)) evs ->
  get_event_loop w z evs = get_event_loop w' z evs.
Proof.
  induction 1 as [|e evs He _ IH]; simpl; [reflexivity|].
  rewrite He, IH. reflexivity.
Qed.

Lemma get_event_loop_found w z evs :
  Exists (fun e => has_id w z e = true) evs ->
  exists event, get_event_loop w z evs = Some event.
Proof.
  intros H. destruct (get_event_loop w z evs) as [e|] eqn:Hg; [eauto|].
  apply get_event_loop_none in Hg. exfalso.
  induction H as [e evs He|e evs _ IH].
  - inversion Hg; congruence.
  - inversion Hg; auto.
Qed.

(** [list.remove] takes out the entry that [get_event] has stopped at. *)
Lemma list_remove_first event pre post :
  Forall (fun e => e <> event) pre ->
  list_remove event (pre ++ event :: post) = Ok (pre ++ post).
Proof.
  induction 1 as [|e pre He _ IH]; simpl.
  - rewrite Nat.eqb_refl. reflexivity.
  - destruct (Nat.eqb e event) eqn:E.
    + apply Nat.eqb_eq in E. contradiction.
    + rewrite IH. reflexivity.
Qed.

Lemma not_has_id_ne w z event pre :
  has_id w z event = true ->
  Forall (fun e => has_id w z e = false) pre ->
  Forall (fun e => e <> event) pre.
Proof.
  intros Hev Hpre. eapply Forall_impl; [exact Hpre|].
  intros e He ->. congruence.
Qed.

(** ** [ScheduleManager.update_event] and [delete_event] *)

Lemma assign_if_given_world event set x w :
  assign_if_given event set x w =
  (Ok tt,
   with_heap (alter (fun e => match x with Some s => set (PStr s) e | None => e end)
                    event (heap w)) w).
Proof.
  destruct x as [s|]; simpl.
  - reflexivity.
  - unfold ret, with_heap. rewrite list_alter_id by reflexivity.
    destruct w; reflexivity.
Qed.

Lemma update_event_found self w z event t d ti de :
  get_event_loop w z (events self) = Some event ->
  update_event self z t d ti de w =
  (Ok (self, true),
   persist self (with_heap (alter (updated t d ti de) event (heap w)) w)).
Proof.
  intros Hg. unfold update_event, bind at 1, get_event. rewrite Hg.
  do 4 (unfold bind at 1; rewrite assign_if_given_world; cbv beta iota).
  unfold bind at 1. rewrite save_events_world. unfold ret. do 2 f_equal.
  unfold with_heap; simpl. f_equal.
  rewrite !list_alter_alter_eq. apply list_alter_ext; [|reflexivity].
  intros e _. destruct e, t, d, ti, de; reflexivity.
Qed.

Lemma update_event_missing self w z t d ti de :
  get_event_loop w z (events self) = None ->
  update_event self z t d ti de w = (Ok (self, false), w).
Proof.
  intros Hg. unfold update_event, bind, get_event. rewrite Hg. reflexivity.
Qed.

Lemma delete_event_found self w z pre event post :
  events self = pre ++ event :: post ->
  Forall (fun e => has_id w z e = false) pre ->
  has_id w z event = true ->
  delete_event self z w =
  (Ok (set_events (pre ++ post) self, true), persist (set_events (pre ++ post) self) w).
Proof.
  intros Hev Hpre Hid.
  assert (Hg : get_event_loop w z (events self) = Some event).
  { apply get_event_loop_some. eauto. }
  unfold delete_event, bind at 1, get_event. rewrite Hg.
  unfold bind, lift. rewrite Hev.
  rewrite (list_remove_first event pre post (not_has_id_ne w z event pre Hid Hpre)).
  rewrite save_events_world. reflexivity.
Qed.

Lemma delete_event_missing self w z :
  get_event_loop w z (events self) = None ->
  delete_event self z w = (Ok (self, false), w).
Proof.
  intros Hg. unfold delete_event, bind, get_event. rewrite Hg. reflexivity.
Qed.

(** C5.  When no event of the collection carries the id, [update_event] and
    [delete_event] return [False] and leave the manager, the events, the
    file and the output untouched: nothing is written. *)
Theorem update_delete_unknown_id (self : ScheduleManager) (w : World) (event_id : Z)
    (title' date' time' description' : option string) :
  Forall (fun e => has_id w event_id e = false) (events self) ->
  update_event self event_id title' date' time' description' w = (Ok (self, false), w) /\
  delete_event self event_id w = (Ok (self, false), w).
Proof.
  intros H. apply get_event_loop_none in H. split.
  - apply update_event_missing. exact H.
  - apply delete_event_missing. exact H.
Qed.

(** C6.  When an event of the collection carries the id, [update_event]
    returns [True]; the first such event gets exactly the fields that were
    given, keeps its other fields and its id, and every other object is
    unchanged; the manager itself is unchanged and the file is rewritten.
    With no field given the event is unchanged. *)
Theorem update_event_frame (self : ScheduleManager) (w : World) (event_id : Z)
    (title' date' time' description' : option string) :
  Exists (fun e => has_id w event_id e = true) (events self) ->
  exists event pre post w',
    events self = pre ++ event :: post /\
    Forall (fun e => has_id w event_id e = false) pre /\
    has_id w event_id event = true /\
    update_event self event_id title' date' time' description' w =
      (Ok (self, true), w') /\
    deref w' event =
      mkEvent (given title' (title (deref w event)))
              (given date' (date (deref w event)))
              (given time' (time (deref w event)))
              (given description' (description (deref w event)))
              (id (deref w event)) /\
    (forall l, l <> event -> deref w' l = deref w l) /\
    List.length (heap w') = List.length (heap w) /\
    disk w' = <[data_file self := Document (saved self w')]> (disk w) /\
    trace w' = trace w ++ [Write (data_file self) (saved self w')] /\
    (title' = None -> date' = None -> time' = None -> description' = None ->
     heap w' = heap w).
Proof.
  intros Hex. destruct (get_event_loop_found _ _ _ Hex) as [event Hg].
  destruct (proj1 (get_event_loop_some _ _ _ _) Hg) as (pre & post & Hev & Hpre & Hid).
  exists event, pre, post. eexists.
  split; [exact Hev|]. split; [exact Hpre|]. split; [exact Hid|].
  split; [apply update_event_found; exact Hg|].
  assert (Hlt : (event < List.length (heap w))%nat).
  { destruct (decide (event < List.length (heap w))%nat) as [?|Hge]; [assumption|].
    unfold has_id, deref in Hid. rewrite lookup_ge_None_2 in Hid by lia.
    discriminate. }
  split; [|split; [|split; [|split; [|split]]]].
  - rewrite deref_persist. unfold with_heap. rewrite deref_alter_eq by exact Hlt.
    rewrite (deref_heap (mkWorld (heap w) (disk w) (trace w)) w) by reflexivity.
    reflexivity.
  - intros l Hl. rewrite deref_persist. unfold with_heap.
    rewrite deref_alter_ne by congruence.
    apply deref_heap. reflexivity.
  - simpl. apply length_alter.
  - reflexivity.
  - reflexivity.
  - intros -> -> -> ->. simpl. apply list_alter_id. intros e. destruct e; reflexivity.
Qed.

Lemma update_delete_unknown_id_witness :
  update_event (mkManager "s.json" [0%nat] (PInt 2)) 7 (Some "B") None None None
    (mkWorld [mkEvent (PStr "A") (PStr "2026-01-15") (PStr "14:00") (PStr "") (PInt 1)]
             ∅ []) =
  (Ok (mkManager "s.json" [0%nat] (PInt 2), false),
   mkWorld [mkEvent (PStr "A") (PStr "2026-01-15") (PStr "14:00") (PStr "") (PInt 1)]
           ∅ []) /\
  delete_event (mkManager "s.json" [0%nat] (PInt 2)) 7
    (mkWorld [mkEvent (PStr "A") (PStr "2026-01-15") (PStr "14:00") (PStr "") (PInt 1)]
             ∅ []) =
  (Ok (mkManager "s.json" [0%nat] (PInt 2), false),
   mkWorld [mkEvent (PStr "A") (PStr "2026-01-15") (PStr "14:00") (PStr "") (PInt 1)]
           ∅ []).
Proof.
  refine (update_delete_unknown_id (mkManager "s.json" [0%nat] (PInt 2)) _ 7
            (Some "B") None None None _).
  repeat constructor.
Defined.

Lemma update_event_frame_witness :
  exists event pre post w',
    [0%nat] = pre ++ event :: post /\
    Forall (fun e =>
      has_id (mkWorld [mkEvent (PStr "A") (PStr "2026-01-15") (PStr "14:00")
                               (PStr "") (PInt 1)] ∅ []) 1 e = false) pre /\
    has_id (mkWorld [mkEvent (PStr "A") (PStr "2026-01-15") (PStr "14:00")
                             (PStr "") (PInt 1)] ∅ []) 1 event = true /\
    update_event (mkManager "s.json" [0%nat] (PInt 2)) 1 None None (Some "15:00") None
      (mkWorld [mkEvent (PStr "A") (PStr "2026-01-15") (PStr "14:00") (PStr "") (PInt 1)]
               ∅ []) = (Ok (mkManager "s.json" [0%nat] (PInt 2), true), w') /\
    deref w' event =
      mkEvent (PStr "A") (PStr "2026-01-15") (PStr "15:00") (PStr "") (PInt 1).
Proof.
  destruct (update_event_frame (mkManager "s.json" [0%nat] (PInt 2))
              (mkWorld [mkEvent (PStr "A") (PStr "2026-01-15") (PStr "14:00")
                                (PStr "") (PInt 1)] ∅ [])
              1 None None (Some "15:00") None)
    as (event & pre & post & w' & Hev & Hpre & Hid & Hup & Hder & _).
  - constructor. reflexivity.
  - exists event, pre, post, w'.
    split; [exact Hev|]. split; [exact Hpre|]. split; [exact Hid|].
    split; [exact Hup|].
    destruct pre as [|x pre].
    + simpl in Hev. injection Hev as <- _. exact Hder.
    + simpl in Hev. injection Hev as _ Hnil. destruct pre; discriminate.
Defined.

(** ** [ScheduleManager.add_event] *)

Lemma add_event_world self event w n :
  next_id self = PInt n ->
  add_event self event w =
  (Ok (mkManager (data_file self) (events self ++ [event]) (PInt (n + 1)), event),
   persist (mkManager (data_file self) (events self ++ [event]) (PInt (n + 1)))
           (with_heap (alter (set_id (PInt n)) event (heap w)) w)).
Proof.
  intros Hn. unfold add_event, bind at 1, setattr. rewrite Hn.
  unfold bind at 1, lift. simpl py_add1. cbv beta iota.
  unfold bind at 1. rewrite save_events_world. reflexivity.
Qed.

(** When [next_id] cannot be incremented the call raises, after the id has
    been stamped on the event. *)
Lemma add_event_raises self event w e :
  py_add1 (next_id self) = Raise e ->
  add_event self event w =
  (Raise e, with_heap (alter (set_id (next_id self)) event (heap w)) w).
Proof.
  intros Hn. unfold add_event, bind at 1, setattr.
  unfold bind at 1, lift. rewrite Hn. reflexivity.
Qed.

(** ** The invariant *)

Lemma ids_Forall2 evs w ks :
  map (fun e => id (deref w e)) evs = map PInt ks <->
  Forall2 (fun e k => id (deref w e) = PInt k) evs ks.
Proof.
  revert ks. induction evs as [|e evs IH]; intros [|k ks]; simpl; split; intros H;
    try discriminate; try constructor; try (inversion H; fail).
  - inversion H. reflexivity.
  - apply IH. inversion H. reflexivity.
  - inversion H; subst. f_equal; [assumption|]. apply IH. assumption.
Qed.

Lemma inv_scoped self w :
  store_inv self w -> Forall (fun e => (e < List.length (heap w))%nat) (events self).
Proof.
  intros (n & ks & _ & Hids & _). apply ids_Forall2 in Hids.
  induction Hids as [|e k evs ks He _ IH]; constructor; [|exact IH].
  destruct (decide (e < List.length (heap w))%nat) as [?|Hge]; [assumption|].
  unfold deref in He. rewrite lookup_ge_None_2 in He by lia. discriminate.
Qed.

Lemma has_id_int w z e k :
  id (deref w e) = PInt k -> has_id w z e = Z.eqb k z.
Proof. unfold has_id. intros ->. reflexivity. Qed.

Lemma Forall2_no_id w z evs ks :
  Forall2 (fun e k => id (deref w e) = PInt k) evs ks ->
  ~ In z ks ->
  Forall (fun e => has_id w z e = false) evs.
Proof.
  induction 1 as [|e k evs ks He _ IH]; intros Hz; constructor.
  - rewrite (has_id_int w z e k He). apply Z.eqb_neq. intros ->. apply Hz. left; reflexivity.
  - apply IH. intros Hin. apply Hz. right; exact Hin.
Qed.

(** Under the invariant, the event [get_event] stops at is the only one
    that carries the id. *)
Lemma inv_unique self w z pre event post :
  store_inv self w ->
  events self = pre ++ event :: post ->
  has_id w z event = true ->
  Forall (fun e => has_id w z e = false) (pre ++ post).
Proof.
  intros (n & ks & _ & Hids & Hnd & _) Hev Hid.
  apply ids_Forall2 in Hids. rewrite Hev in Hids.
  apply Forall2_app_inv_l in Hids as (ks1 & ks' & H1 & H2 & ->).
  inversion H2 as [|? k ? ks2 Hk H3]; subst.
  rewrite (has_id_int w z event k Hk) in Hid. apply Z.eqb_eq in Hid. subst k.
  apply NoDup_app in Hnd as (Hnd1 & Hcross & Hnd2).
  apply NoDup_cons in Hnd2 as [Hz2 _].
  apply Forall_app. split.
  - apply (Forall2_no_id w z pre ks1 H1). intros Hin.
    apply (Hcross z); [apply list_elem_of_In; exact Hin|left].
  - apply (Forall2_no_id w z post ks2 H3). intros Hin.
    apply Hz2. apply list_elem_of_In. exact Hin.
Qed.

Lemma inv_ext self self' w w' :
  events self' = events self ->
  next_id self' = next_id self ->
  Forall (fun e => id (deref w' e) = id (deref w e)) (events self) ->
  store_inv self w -> store_inv self' w'.
Proof.
  intros Hev Hn Hid (n & ks & Hn' & Hids & Hnd & Hlt).
  exists n, ks. split; [congruence|]. split; [|auto].
  unfold ids in *. rewrite Hev, <- Hids.
  clear - Hid. induction Hid as [|e evs He _ IH]; simpl; [reflexivity|].
  rewrite He, IH. reflexivity.
Qed.

Lemma inv_new self w e :
  store_inv self w -> store_inv self (with_heap (heap w ++ [e]) w).
Proof.
  intros H. apply (inv_ext self self w); [reflexivity|reflexivity| |exact H].
  eapply Forall_impl; [apply (inv_scoped self w H)|].
  intros l Hl. simpl in Hl. unfold with_heap. rewrite deref_app_l by exact Hl.
  reflexivity.
Qed.

Lemma inv_update self w l t d ti de :
  store_inv self w ->
  store_inv self (persist self (with_heap (alter (updated t d ti de) l (heap w)) w)).
Proof.
  intros H. apply (inv_ext self self w); [reflexivity|reflexivity| |exact H].
  apply Forall_forall. intros e _. rewrite deref_persist. unfold with_heap.
  rewrite deref_alter_id by reflexivity.
  reflexivity.
Qed.

Lemma inv_delete self w pre event post :
  store_inv self w ->
  events self = pre ++ event :: post ->
  store_inv (set_events (pre ++ post) self)
            (persist (set_events (pre ++ post) self) w).
Proof.
  intros (n & ks & Hn & Hids & Hnd & Hlt) Hev.
  apply ids_Forall2 in Hids. rewrite Hev in Hids.
  apply Forall2_app_inv_l in Hids as (ks1 & ks' & H1 & H2 & ->).
  inversion H2 as [|? k ? ks2 Hk H3]; subst.
  exists n, (ks1 ++ ks2). split; [exact Hn|]. split; [|split].
  - apply ids_Forall2. simpl. apply Forall2_app; assumption.
  - apply NoDup_app in Hnd as (Hnd1 & Hcross & Hnd2).
    apply NoDup_cons in Hnd2 as [_ Hnd2].
    apply NoDup_app. split; [exact Hnd1|]. split; [|exact Hnd2].
    intros x Hx Hx2. apply (Hcross x Hx). right. exact Hx2.
  - apply Forall_app in Hlt as [Hlt1 Hlt2]. inversion Hlt2; subst.
    apply Forall_app. auto.
Qed.

Lemma inv_add self w event n :
  store_inv self w ->
  next_id self = PInt n ->
  (event < List.length (heap w))%nat ->
  ~ In event (events self) ->
  store_inv (mkManager (data_file self) (events self ++ [event]) (PInt (n + 1)))
            (persist (mkManager (data_file self) (events self ++ [event]) (PInt (n + 1)))
                     (with_heap (alter (set_id (PInt n)) event (heap w)) w)).
Proof.
  intros (n' & ks & Hn' & Hids & Hnd & Hlt) Hn Hscope Hfresh.
  assert (n' = n) by congruence. subst n'.
  apply ids_Forall2 in Hids.
  exists (n + 1), (ks ++ [n]). split; [reflexivity|]. split; [|split].
  - apply ids_Forall2. simpl. apply Forall2_app.
    + clear - Hids Hfresh. induction Hids as [|e k evs ks' He _ IH]; constructor.
      * rewrite deref_persist. unfold with_heap. rewrite deref_alter_ne.
        -- rewrite <- He. reflexivity.
        -- intros ->. apply Hfresh. left; reflexivity.
      * apply IH. intros Hin. apply Hfresh. right; exact Hin.
    + constructor; [|constructor]. rewrite deref_persist. unfold with_heap.
      rewrite deref_alter_eq by exact Hscope. reflexivity.
  - apply NoDup_app. split; [exact Hnd|]. split; [|apply NoDup_singleton].
    intros x Hx Hx'. apply list_elem_of_singleton in Hx'. subst x.
    rewrite Forall_forall in Hlt. specialize (Hlt n Hx). lia.
  - apply Forall_app. split.
    + eapply Forall_impl; [exact Hlt|]. intros x Hx; simpl in Hx. lia.
    + constructor; [lia|constructor].
Qed.




Lemma store_inv_example :
  store_inv (mkManager "s.json" [0%nat] (PInt 2))
    (mkWorld [mkEvent (PStr "A") (PStr "2026-01-15") (PStr "14:00") (PStr "") (PInt 1);
              mkEvent (PStr "B") (PStr "2026-01-16") (PStr "10:30") (PStr "") PNone]
             ∅ []).
Proof.
  exists 2, [1]. split; [reflexivity|]. split; [reflexivity|].
  split; [apply NoDup_singleton|]. constructor; [lia|constructor].
Defined.


(** ** Runs of calls *)

Lemma step_inv o self w n :
  store_inv self w ->
  next_id self = PInt n ->
  op_scoped o w && op_fresh o self = true ->
  exists self' r w',
    step o self w = (Ok (self', r), w') /\
    store_inv self' w' /\
    add_ids [r] = (if is_add o then [PInt n] else []) /\
    next_id self' = PInt (if is_add o then n + 1 else n).
Proof.
  intros Hinv Hn Hok. destruct o as [t d ti de|event|z t d ti de|z]; simpl.
  - eexists _, _, _. split; [reflexivity|]. simpl.
    split; [apply inv_new; exact Hinv|auto].
  - apply andb_true_iff in Hok as [Hscope Hfresh]. simpl in Hscope, Hfresh.
    apply Nat.ltb_lt in Hscope.
    assert (Hnotin : ~ In event (events self)).
    { intros Hin. apply negb_true_iff in Hfresh.
      assert (existsb (Nat.eqb event) (events self) = true); [|congruence].
      apply existsb_exists. exists event. split; [exact Hin|apply Nat.eqb_refl]. }
    unfold bind. rewrite (add_event_world self event w n Hn). simpl fst; simpl snd.
    eexists _, _, _. split; [reflexivity|].
    split; [apply inv_add; assumption|].
    split; [|reflexivity]. simpl. f_equal.
    unfold with_heap. rewrite deref_persist, deref_alter_eq by exact Hscope.
    reflexivity.
  - unfold bind.
    destruct (get_event_loop w z (events self)) as [event|] eqn:Hg.
    + rewrite (update_event_found self w z event t d ti de Hg).
      eexists _, _, _. split; [reflexivity|]. simpl.
      split; [apply inv_update; exact Hinv|auto].
    + rewrite (update_event_missing self w z t d ti de Hg).
      eexists _, _, _. split; [reflexivity|]. simpl. auto.
  - unfold bind.
    destruct (get_event_loop w z (events self)) as [event|] eqn:Hg.
    + apply get_event_loop_some in Hg as (pre & post & Hev & Hpre & Hid).
      rewrite (delete_event_found self w z pre event post Hev Hpre Hid).
      eexists _, _, _. split; [reflexivity|]. simpl.
      split; [apply (inv_delete self w pre event post Hinv Hev)|auto].
    + rewrite (delete_event_missing self w z Hg).
      eexists _, _, _. split; [reflexivity|]. simpl. auto.
Qed.

Lemma add_ids_cons r rs : add_ids (r :: rs) = add_ids [r] ++ add_ids rs.
Proof. destruct r; simpl; reflexivity. Qed.

Lemma run_inv ops : forall self w n,
  store_inv self w ->
  next_id self = PInt n ->
  admissible ops self w = true ->
  exists self' rs w',
    run ops self w = (Ok (self', rs), w') /\
    store_inv self' w' /\
    add_ids rs = map PInt (count_from n (List.length (add_ids rs))) /\
    next_id self' = PInt (n + Z.of_nat (List.length (add_ids rs))).
Proof.
  induction ops as [|o ops IH]; intros self w n Hinv Hn Hadm.
  - exists self, [], w. simpl. rewrite Z.add_0_r. auto.
  - unfold admissible in Hadm. simpl in Hadm.
    apply andb_true_iff in Hadm as [Hok Hrest].
    destruct (step_inv o self w n Hinv Hn Hok) as (self1 & r & w1 & Hstep & Hinv1 & Hr & Hn1).
    rewrite Hstep in Hrest. simpl in Hrest.
    destruct (IH self1 w1 _ Hinv1 Hn1 Hrest) as (self2 & rs & w2 & Hrun & Hinv2 & Hrs & Hn2).
    exists self2, (r :: rs), w2. split.
    { simpl. unfold bind at 1. rewrite Hstep.
      unfold bind at 1. simpl fst. rewrite Hrun. reflexivity. }
    split; [exact Hinv2|].
    rewrite (add_ids_cons r rs), Hr, Hn2.
    destruct (is_add o); simpl.
    + split; [f_equal; exact Hrs|]. f_equal. lia.
    + split; [exact Hrs|reflexivity].
Qed.

Lemma all_steps_take ok ops : forall k self w,
  all_steps ok ops self w = true -> all_steps ok (take k ops) self w = true.
Proof.
  induction ops as [|o ops IH]; intros k self w H.
  - destruct k; reflexivity.
  - destruct k as [|k]; [reflexivity|]. simpl in *.
    apply andb_true_iff in H as [Hok Hrest]. rewrite Hok. simpl.
    destruct (step o self w) as [[r|e] w']; [|reflexivity].
    apply IH. exact Hrest.
Qed.







(** ** Order on strings *)

Lemma ascii_compare_refl a : Ascii.compare a a = Eq.
Proof. unfold Ascii.compare. apply N.compare_refl. Qed.

Lemma ascii_compare_lt_trans a b c :
  Ascii.compare a b = Lt -> Ascii.compare b c = Lt -> Ascii.compare a c = Lt.
Proof. unfold Ascii.compare. rewrite !N.compare_lt_iff. lia. Qed.

Lemma str_compare_refl s : String.compare s s = Eq.
Proof.
  induction s as [|a s IH]; simpl; [reflexivity|].
  rewrite ascii_compare_refl. exact IH.
Qed.

Lemma str_compare_lt_trans a : forall b c,
  String.compare a b = Lt -> String.compare b c = Lt -> String.compare a c = Lt.
Proof.
  induction a as [|x a IH]; intros [|y b] [|z c]; simpl; try congruence.
  destruct (Ascii.compare x y) eqn:Hxy; try discriminate.
  - apply Ascii.compare_eq_iff in Hxy. subst y.
    destruct (Ascii.compare x z); try congruence. apply IH.
  - destruct (Ascii.compare y z) eqn:Hyz; try discriminate.
    + apply Ascii.compare_eq_iff in Hyz. subst z. rewrite Hxy. reflexivity.
    + rewrite (ascii_compare_lt_trans x y z Hxy Hyz). reflexivity.
Qed.

Lemma str_eqb_compare a b : String.eqb a b = true <-> String.compare a b = Eq.
Proof.
  rewrite String.eqb_eq. split.
  - intros ->. apply str_compare_refl.
  - apply String.compare_eq_iff.
Qed.

Lemma str_leb_trans a b c :
  String.leb a b = true -> String.leb b c = true -> String.leb a c = true.
Proof.
  unfold String.leb.
  destruct (String.compare a b) eqn:Hab; try discriminate;
    destruct (String.compare b c) eqn:Hbc; try discriminate; intros _ _.
  - apply String.compare_eq_iff in Hab. subst b. rewrite Hbc. reflexivity.
  - apply String.compare_eq_iff in Hab. subst b. rewrite Hbc. reflexivity.
  - apply String.compare_eq_iff in Hbc. subst c. rewrite Hab. reflexivity.
  - rewrite (str_compare_lt_trans a b c Hab Hbc). reflexivity.
Qed.

Lemma pair_leb_trans a b c :
  pair_leb a b = true -> pair_leb b c = true -> pair_leb a c = true.
Proof.
  unfold pair_leb.
  destruct (String.compare a.1 b.1) eqn:Hab; try discriminate;
    destruct (String.compare b.1 c.1) eqn:Hbc; try discriminate.
  - apply String.compare_eq_iff in Hab. apply String.compare_eq_iff in Hbc.
    rewrite Hab, Hbc, str_compare_refl. apply str_leb_trans.
  - apply String.compare_eq_iff in Hab. rewrite Hab, Hbc. reflexivity.
  - apply String.compare_eq_iff in Hbc. rewrite <- Hbc, Hab. reflexivity.
  - rewrite (str_compare_lt_trans _ _ _ Hab Hbc). reflexivity.
Qed.

Lemma pair_ltb_leb a b : pair_ltb a b = true -> pair_leb a b = true.
Proof.
  unfold pair_ltb, pair_leb, String.ltb, String.leb.
  destruct (String.compare a.1 b.1); try congruence.
  destruct (String.compare a.2 b.2); congruence.
Qed.

Lemma pair_ltb_false a b : pair_ltb a b = false -> pair_leb b a = true.
Proof.
  unfold pair_ltb, pair_leb, String.ltb, String.leb.
  rewrite (String.compare_antisym a.1 b.1), (String.compare_antisym a.2 b.2).
  destruct (String.compare b.1 a.1); simpl; try congruence.
  destruct (String.compare b.2 a.2); simpl; congruence.
Qed.

Lemma pair_ltb_irrefl a : pair_ltb a a = false.
Proof.
  unfold pair_ltb, String.ltb. rewrite !str_compare_refl. reflexivity.
Qed.

(** On string pairs Python's tuple comparison is the lexicographic order. *)
Lemma tuple_lt_str d1 t1 d2 t2 :
  tuple_lt (PStr d1, PStr t1) (PStr d2, PStr t2) = Ok (pair_ltb (d1, t1) (d2, t2)).
Proof.
  unfold tuple_lt, pair_ltb; simpl.
  destruct (String.eqb d1 d2) eqn:Hd.
  - rewrite (proj1 (str_eqb_compare d1 d2) Hd).
    destruct (String.eqb t1 t2) eqn:Ht; [|reflexivity].
    unfold String.ltb. rewrite (proj1 (str_eqb_compare t1 t2) Ht). reflexivity.
  - unfold String.ltb. destruct (String.compare d1 d2) eqn:Hc; try reflexivity.
    apply str_eqb_compare in Hc. congruence.
Qed.

Lemma sort_key_str w e :
  has_str_key w e = true ->
  sort_key w e = (PStr (str_key w e).1, PStr (str_key w e).2).
Proof.
  unfold has_str_key, sort_key, str_key. intros H.
  apply andb_true_iff in H as [Hd Ht].
  destruct (date (deref w e)); try discriminate.
  destruct (time (deref w e)); try discriminate. reflexivity.
Qed.

(** ** [sorted] on string keys *)

Section Sorting.
Variable w : World.

Lemma insert_pure_Forall (P : loc -> Prop) x l :
  P x -> Forall P l -> Forall P (insert_pure (str_key w) x l).
Proof.
  intros Hx. induction 1 as [|y l Hy Hl IH]; simpl.
  - repeat constructor. exact Hx.
  - destruct (pair_ltb (str_key w y) (str_key w x)); repeat constructor; assumption.
Qed.

Lemma sort_pure_Forall (P : loc -> Prop) l :
  Forall P l -> Forall P (sort_pure (str_key w) l).
Proof.
  induction 1 as [|x l Hx Hl IH]; simpl; [constructor|].
  apply insert_pure_Forall; assumption.
Qed.

Lemma insert_sorted_str x l :
  has_str_key w x = true ->
  Forall (fun e => has_str_key w e = true) l ->
  insert_sorted tuple_lt (sort_key w) x l = Ok (insert_pure (str_key w) x l).
Proof.
  intros Hx. induction 1 as [|y l Hy Hl IH]; simpl; [reflexivity|].
  rewrite (sort_key_str w y Hy), (sort_key_str w x Hx), tuple_lt_str.
  rewrite <- !surjective_pairing. cbn [res_bind].
  destruct (pair_ltb (str_key w y) (str_key w x)); [|reflexivity].
  rewrite IH. reflexivity.
Qed.

Lemma sorted_str l :
  Forall (fun e => has_str_key w e = true) l ->
  sorted tuple_lt (sort_key w) l = Ok (sort_pure (str_key w) l).
Proof.
  induction 1 as [|x l Hx Hl IH]; simpl; [reflexivity|].
  rewrite IH. simpl. apply insert_sorted_str; [exact Hx|].
  apply sort_pure_Forall. exact Hl.
Qed.

Lemma insert_pure_perm x l : Permutation (insert_pure (str_key w) x l) (x :: l).
Proof.
  induction l as [|y l IH]; simpl; [reflexivity|].
  destruct (pair_ltb (str_key w y) (str_key w x)); [|reflexivity].
  rewrite IH. apply perm_swap.
Qed.

Lemma sort_pure_perm l : Permutation (sort_pure (str_key w) l) l.
Proof.
  induction l as [|x l IH]; simpl; [reflexivity|].
  rewrite insert_pure_perm. constructor. exact IH.
Qed.

Lemma insert_pure_sorted x l :
  StronglySorted (key_le w) l ->
  StronglySorted (key_le w) (insert_pure (str_key w) x l).
Proof.
  induction 1 as [|y l Hl IH Hy]; simpl.
  - repeat constructor.
  - destruct (pair_ltb (str_key w y) (str_key w x)) eqn:Hlt.
    + constructor; [exact IH|].
      apply insert_pure_Forall; [|exact Hy].
      apply pair_ltb_leb. exact Hlt.
    + apply pair_ltb_false in Hlt.
      constructor; [constructor; assumption|].
      constructor; [exact Hlt|].
      eapply Forall_impl; [exact Hy|]. intros z Hz.
      exact (pair_leb_trans _ _ _ Hlt Hz).
Qed.

Lemma sort_pure_sorted l : StronglySorted (key_le w) (sort_pure (str_key w) l).
Proof.
  induction l as [|x l IH]; simpl; [constructor|].
  apply insert_pure_sorted. exact IH.
Qed.

Lemma insert_pure_stable k x l :
  with_key (str_key w) k (insert_pure (str_key w) x l) =
  with_key (str_key w) k (x :: l).
Proof.
  induction l as [|y l IH]; [reflexivity|].
  simpl insert_pure.
  destruct (pair_ltb (str_key w y) (str_key w x)) eqn:Hlt; [|reflexivity].
  unfold with_key in *. simpl in *. rewrite IH.
  destruct (bool_decide (str_key w y = k)) eqn:Hy; [|reflexivity].
  destruct (bool_decide (str_key w x = k)) eqn:Hx; [|reflexivity].
  apply bool_decide_eq_true in Hy, Hx.
  rewrite Hy, Hx, pair_ltb_irrefl in Hlt. discriminate.
Qed.

Lemma sort_pure_stable k l :
  with_key (str_key w) k (sort_pure (str_key w) l) = with_key (str_key w) k l.
Proof.
  induction l as [|x l IH]; [reflexivity|].
  simpl sort_pure. rewrite insert_pure_stable.
  unfold with_key in *. simpl. rewrite IH. reflexivity.
Qed.

End Sorting.

(** ** [ScheduleManager.list_events] *)

Lemma date_is_py_eq w d e : py_eq (date (deref w e)) (PStr d) = date_is w d e.
Proof. unfold date_is. destruct (date (deref w e)); reflexivity. Qed.

Lemma date_is_spec w d e : date_is w d e = true <-> date (deref w e) = PStr d.
Proof. rewrite <- date_is_py_eq. apply py_eq_str. Qed.

Lemma truthy_nonempty d : d <> "" -> truthy (Some d) = true.
Proof.
  intros Hd. simpl. apply negb_true_iff. apply String.eqb_neq. exact Hd.
Qed.

Lemma list_events_filtered self w d :
  d <> "" ->
  list_events self (Some d) w =
  (Ok (List.filter (date_is w d) (events self)), w).
Proof.
  intros Hd. unfold list_events. rewrite (truthy_nonempty d Hd). simpl.
  do 2 f_equal. apply filter_ext. intros e. apply date_is_py_eq.
Qed.

(** C2, as amended.  With a non-empty date filter, [list_events] returns
    the events whose date is the filter, in store order, unsorted.  With no
    filter, on a store whose events have string dates and times, it returns
    all the events (a permutation of the collection) in ascending order of
    the string pair [(date, time)], events with the same pair keeping their
    store order. *)
Theorem list_events_contract (self : ScheduleManager) (w : World) :
  (forall d,
      d <> "" ->
      list_events self (Some d) w =
      (Ok (List.filter (date_is w d) (events self)), w)) /\
  (Forall (fun e => has_str_key w e = true) (events self) ->
   exists r,
     list_events self None w = (Ok r, w) /\
     Permutation r (events self) /\
     StronglySorted (key_le w) r /\
     forall k, with_key (str_key w) k r = with_key (str_key w) k (events self)).
Proof.
  split.
  - intros d Hd. apply list_events_filtered. exact Hd.
  - intros Hstr. exists (sort_pure (str_key w) (events self)).
    split; [|split; [|split]].
    + unfold list_events. simpl. rewrite (sorted_str w _ Hstr). reflexivity.
    + apply sort_pure_perm.
    + apply sort_pure_sorted.
    + intros k. apply sort_pure_stable.
Qed.

Lemma list_events_contract_witness :
  list_events (mkManager "s.json" [0%nat; 1%nat; 2%nat] (PInt 4)) (Some "2026-01-15")
    (mkWorld [mkEvent (PStr "A") (PStr "2026-01-15") (PStr "14:00") (PStr "") (PInt 1);
              mkEvent (PStr "B") (PStr "2026-01-16") (PStr "10:30") (PStr "") (PInt 2);
              mkEvent (PStr "C") (PStr "2026-01-15") (PStr "12:00") (PStr "") (PInt 3)]
             ∅ []) =
  (Ok [0%nat; 2%nat],
   mkWorld [mkEvent (PStr "A") (PStr "2026-01-15") (PStr "14:00") (PStr "") (PInt 1);
            mkEvent (PStr "B") (PStr "2026-01-16") (PStr "10:30") (PStr "") (PInt 2);
            mkEvent (PStr "C") (PStr "2026-01-15") (PStr "12:00") (PStr "") (PInt 3)]
           ∅ []) /\
  exists r,
    list_events (mkManager "s.json" [0%nat; 1%nat; 2%nat] (PInt 4)) None
      (mkWorld [mkEvent (PStr "A") (PStr "2026-01-15") (PStr "14:00") (PStr "") (PInt 1);
                mkEvent (PStr "B") (PStr "2026-01-16") (PStr "10:30") (PStr "") (PInt 2);
                mkEvent (PStr "C") (PStr "2026-01-15") (PStr "12:00") (PStr "") (PInt 3)]
               ∅ []) =
    (Ok r,
     mkWorld [mkEvent (PStr "A") (PStr "2026-01-15") (PStr "14:00") (PStr "") (PInt 1);
              mkEvent (PStr "B") (PStr "2026-01-16") (PStr "10:30") (PStr "") (PInt 2);
              mkEvent (PStr "C") (PStr "2026-01-15") (PStr "12:00") (PStr "") (PInt 3)]
             ∅ []) /\
    Permutation r [0%nat; 1%nat; 2%nat].
Proof.
  split.
  - refine (proj1 (list_events_contract
                     (mkManager "s.json" [0%nat; 1%nat; 2%nat] (PInt 4)) _)
                  "2026-01-15" _).
    discriminate.
  - destruct (proj2 (list_events_contract
                       (mkManager "s.json" [0%nat; 1%nat; 2%nat] (PInt 4))
      (mkWorld [mkEvent (PStr "A") (PStr "2026-01-15") (PStr "14:00") (PStr "") (PInt 1);
                mkEvent (PStr "B") (PStr "2026-01-16") (PStr "10:30") (PStr "") (PInt 2);
                mkEvent (PStr "C") (PStr "2026-01-15") (PStr "12:00") (PStr "") (PInt 3)]
               ∅ [])))
      as (r & Hr & Hperm & _).
    + repeat constructor.
    + exists r. split; [exact Hr|exact Hperm].
Defined.

(** C2, as stated, fails for the empty string: it is a date filter that was
    supplied, no event has it as its date, and yet the listing returns the
    whole collection. *)
Lemma empty_filter_not_applied :
  list_events (mkManager "s.json" [0%nat] (PInt 2)) (Some "")
    (mkWorld [mkEvent (PStr "A") (PStr "2026-01-15") (PStr "14:00") (PStr "") (PInt 1)]
             ∅ []) =
  (Ok [0%nat],
   mkWorld [mkEvent (PStr "A") (PStr "2026-01-15") (PStr "14:00") (PStr "") (PInt 1)]
           ∅ []) /\
  List.filter
    (date_is (mkWorld [mkEvent (PStr "A") (PStr "2026-01-15") (PStr "14:00")
                               (PStr "") (PInt 1)] ∅ []) "")
    (events (mkManager "s.json" [0%nat] (PInt 2))) = [] /\
  list_events (mkManager "s.json" [0%nat] (PInt 2)) (Some "")
    (mkWorld [mkEvent (PStr "A") (PStr "2026-01-15") (PStr "14:00") (PStr "") (PInt 1)]
             ∅ []) <>
  (Ok (List.filter
         (date_is (mkWorld [mkEvent (PStr "A") (PStr "2026-01-15") (PStr "14:00")
                                    (PStr "") (PInt 1)] ∅ []) "")
         (events (mkManager "s.json" [0%nat] (PInt 2)))),
   mkWorld [mkEvent (PStr "A") (PStr "2026-01-15") (PStr "14:00") (PStr "") (PInt 1)]
           ∅ []).
Proof.
  split; [reflexivity|]. split; [reflexivity|].
  intros H. inversion H.
Qed.

(** C9.  The empty string as date filter is no filter: the call takes the
    same branch as the call without argument and returns the same result,
    which on string dates and times is the whole collection sorted by
    [(date, time)].  Every filter that does select is non-empty, so an event
    whose date is the empty string is in the result of no filtered
    listing. *)
Theorem empty_filter_is_no_filter (self : ScheduleManager) (w : World) :
  list_events self (Some "") w = list_events self None w /\
  (Forall (fun e => has_str_key w e = true) (events self) ->
   list_events self (Some "") w = (Ok (sort_pure (str_key w) (events self)), w)) /\
  (forall d r e,
      d <> "" ->
      list_events self (Some d) w = (Ok r, w) ->
      In e r ->
      date (deref w e) <> PStr "").
Proof.
  split; [reflexivity|]. split.
  - intros Hstr. unfold list_events. simpl. rewrite (sorted_str w _ Hstr). reflexivity.
  - intros d r e Hd Hl Hin Hdate.
    rewrite (list_events_filtered self w d Hd) in Hl. inversion Hl; subst r.
    apply filter_In in Hin as [_ His].
    apply date_is_spec in His. congruence.
Qed.

Lemma empty_filter_is_no_filter_witness :
  list_events (mkManager "s.json" [0%nat; 1%nat] (PInt 3)) (Some "")
    (mkWorld [mkEvent (PStr "A") (PStr "2026-01-15") (PStr "14:00") (PStr "") (PInt 1);
              mkEvent (PStr "B") (PStr "") (PStr "10:30") (PStr "") (PInt 2)]
             ∅ []) =
  (Ok [1%nat; 0%nat],
   mkWorld [mkEvent (PStr "A") (PStr "2026-01-15") (PStr "14:00") (PStr "") (PInt 1);
            mkEvent (PStr "B") (PStr "") (PStr "10:30") (PStr "") (PInt 2)]
           ∅ []) /\
  date (deref
          (mkWorld [mkEvent (PStr "A") (PStr "2026-01-15") (PStr "14:00") (PStr "") (PInt 1);
                    mkEvent (PStr "B") (PStr "") (PStr "10:30") (PStr "") (PInt 2)]
                   ∅ []) 0%nat) <> PStr "".
Proof.
  split.
  - refine (proj1 (proj2 (empty_filter_is_no_filter
                            (mkManager "s.json" [0%nat; 1%nat] (PInt 3)) _)) _).
    repeat constructor.
  - refine (proj2 (proj2 (empty_filter_is_no_filter
                            (mkManager "s.json" [0%nat; 1%nat] (PInt 3)) _))
                  "2026-01-15" [0%nat] 0%nat _ _ _).
    + discriminate.
    + reflexivity.
    + left; reflexivity.
Defined.

(** * Further properties of [schedule.py] *)

(** ** Loading reads only *)

Lemma from_dict_heap v w r w' :
  from_dict v w = (r, w') -> exists es, heap w' = heap w ++ es.
Proof.
  destruct v as [| | | | |d];
    try (intros H; inversion H; exists []; rewrite app_nil_r; reflexivity).
  destruct (event_of_dict d) as [e|] eqn:He.
  - rewrite (from_dict_ok d e w He). intros H; inversion H. exists [e]. reflexivity.
  - destruct (from_dict_missing d w He) as (k & _ & _ & Hk).
    rewrite Hk. intros H; inversion H. exists []. rewrite app_nil_r. reflexivity.
Qed.

Lemma from_dict_all_heap items : forall w r w',
  from_dict_all items w = (r, w') -> exists es, heap w' = heap w ++ es.
Proof.
  induction items as [|item items IH]; intros w r w'; simpl.
  - intros H; inversion H. exists []. rewrite app_nil_r. reflexivity.
  - unfold bind at 1.
    destruct (from_dict item w) as [[l|e] w1] eqn:H1;
      apply from_dict_heap in H1; destruct H1 as [es1 H1].
    + unfold bind at 1.
      destruct (from_dict_all items w1) as [[ls|e] w2] eqn:H2;
        apply IH in H2; destruct H2 as [es2 H2];
        intros H; inversion H; subst; exists (es1 ++ es2);
        rewrite H2, H1, app_assoc; reflexivity.
    + intros H; inversion H; subst. exists es1. exact H1.
Qed.

Lemma init_reads_only (path : string) (w : World) :
  disk (ScheduleManager_init path w).2 = disk w /\
  (exists es, heap (ScheduleManager_init path w).2 = heap w ++ es) /\
  (trace (ScheduleManager_init path w).2 = trace w \/
   trace (ScheduleManager_init path w).2 = trace w ++ [warning path] /\
   (ScheduleManager_init path w).1 = Ok (empty_store path)).
Proof.
  assert (Hsame : forall r, (exists es, heap (r, w).2 = heap w ++ es) /\
            (trace (r : Res ScheduleManager, w).2 = trace w \/
             trace (r, w).2 = trace w ++ [warning path] /\ (r, w).1 = Ok (empty_store path))).
  { intros r. split; [exists []; simpl; rewrite app_nil_r; reflexivity|left; reflexivity]. }
  destruct (disk w !! path) as [[|v]|] eqn:H.
  - rewrite (init_malformed path w H). simpl.
    split; [reflexivity|]. split; [exists []; rewrite app_nil_r; reflexivity|].
    right. auto.
  - destruct (is_dict v) eqn:Hv.
    2:{ rewrite (init_not_dict path w v H Hv). split; [reflexivity|apply Hsame]. }
    destruct v as [| | | | |d]; try discriminate.
    open_file H.
    destruct (py_iter (default (PList []) (assoc "events" d))) as [items|e] eqn:Hit;
      simpl.
    2:{ assert (e = TypeError) as ->.
        { destruct (default (PList []) (assoc "events" d)); simpl in Hit; congruence. }
        simpl. split; [reflexivity|apply Hsame]. }
    destruct (from_dict_all items w) as [[evs|e] w1] eqn:Hf;
      destruct (from_dict_all_world _ _ _ _ Hf) as [Hd Ht];
      destruct (from_dict_all_heap _ _ _ _ Hf) as [es Hh]; simpl.
    + split; [exact Hd|]. split; [exists es; exact Hh|left; exact Ht].
    + destruct (load_caught e); simpl.
      * split; [exact Hd|]. split; [exists es; exact Hh|].
        right. rewrite Ht. auto.
      * split; [exact Hd|]. split; [exists es; exact Hh|left; exact Ht].
  - rewrite (init_absent path w H). split; [reflexivity|apply Hsame].
Qed.

(** X4.  Constructing a manager reads: whatever the file holds and however
    the constructor ends, the file system is as before, the objects that
    existed are as before (new ones are appended), and the output is as
    before or has gained the one warning line, in which case the store is
    empty. *)
Theorem load_is_read_only (path : string) (w : World) :
  disk (ScheduleManager_init path w).2 = disk w /\
  (exists es, heap (ScheduleManager_init path w).2 = heap w ++ es) /\
  (trace (ScheduleManager_init path w).2 = trace w \/
   trace (ScheduleManager_init path w).2 = trace w ++ [warning path] /\
   (ScheduleManager_init path w).1 = Ok (empty_store path)).
Proof. exact (init_reads_only path w). Qed.

(** ** Adding *)

Lemma add_event_ok self event w n' :
  py_add1 (next_id self) = Ok n' ->
  add_event self event w =
  (Ok (mkManager (data_file self) (events self ++ [event]) n', event),
   persist (mkManager (data_file self) (events self ++ [event]) n')
           (with_heap (alter (set_id (next_id self)) event (heap w)) w)).
Proof.
  intros Hn. unfold add_event, bind at 1, setattr.
  unfold bind at 1, lift. rewrite Hn. cbv beta iota.
  unfold bind at 1. rewrite save_events_world. reflexivity.
Qed.

(** X1.  On a store whose [next_id] is a number, [add_event] returns the
    object it was given, with [next_id] as its id whatever id it carried and
    its other fields as they were; the reference is appended to the
    collection, [next_id] is incremented, every other object is unchanged,
    and the new state is written to the file. *)
Theorem add_event_frame (self : ScheduleManager) (event : loc) (w : World)
    (n' : pyval) :
  py_add1 (next_id self) = Ok n' ->
  (event < List.length (heap w))%nat ->
  exists self' w',
    add_event self event w = (Ok (self', event), w') /\
    data_file self' = data_file self /\
    events self' = events self ++ [event] /\
    next_id self' = n' /\
    deref w' event =
      mkEvent (title (deref w event)) (date (deref w event)) (time (deref w event))
              (description (deref w event)) (next_id self) /\
    (forall l, l <> event -> deref w' l = deref w l) /\
    disk w' = <[data_file self := Document (saved self' w')]> (disk w) /\
    trace w' = trace w ++ [Write (data_file self) (saved self' w')].
Proof.
  intros Hn Hscope. eexists _, _. split; [apply add_event_ok; exact Hn|].
  split; [reflexivity|]. split; [reflexivity|]. split; [reflexivity|].
  split; [|split; [|split; reflexivity]].
  - rewrite deref_persist. unfold with_heap. rewrite deref_alter_eq by exact Hscope.
    reflexivity.
  - intros l Hl. rewrite deref_persist. unfold with_heap.
    rewrite deref_alter_ne by congruence. reflexivity.
Qed.

Lemma add_event_frame_witness :
  exists self' w',
    add_event (mkManager "s.json" [] (PInt 5)) 0%nat
      (mkWorld [mkEvent (PStr "A") (PStr "2026-01-15") (PStr "14:00") (PStr "") (PInt 9)]
               ∅ []) = (Ok (self', 0%nat), w') /\
    events self' = [0%nat] /\ next_id self' = PInt 6 /\
    deref w' 0%nat =
      mkEvent (PStr "A") (PStr "2026-01-15") (PStr "14:00") (PStr "") (PInt 5).
Proof.
  destruct (add_event_frame (mkManager "s.json" [] (PInt 5)) 0%nat
              (mkWorld [mkEvent (PStr "A") (PStr "2026-01-15") (PStr "14:00")
                                (PStr "") (PInt 9)] ∅ [])
              (PInt 6) eq_refl)
    as (self' & w' & Hadd & _ & Hev & Hn & Hder & _).
  - simpl. lia.
  - exists self', w'. auto.
Defined.

(** X2.  [load_events] takes [next_id] from the file as it is.  When the
    file gives a value that is not a number (a string, [null], a list, a
    mapping), the store loads without warning, and every [add_event] then
    raises [TypeError]: the id is stamped on the event, but the collection is
    not extended and nothing is written. *)
Theorem non_numeric_next_id (path : string) (w : World)
    (d : list (string * pyval)) (v : pyval) (items : list pyval) (es : list Event) :
  disk w !! path = Some (Document (PDict d)) ->
  assoc "next_id" d = Some v ->
  is_number v = false ->
  py_iter (default (PList []) (assoc "events" d)) = Ok items ->
  Forall2 (fun item e => event_of item = Some e) items es ->
  exists self w1,
    ScheduleManager_init path w = (Ok self, w1) /\
    next_id self = v /\
    trace w1 = trace w /\
    forall event,
      add_event self event w1 =
      (Raise TypeError, with_heap (alter (set_id v) event (heap w1)) w1).
Proof.
  intros H Hn Hv Hit Hes. eexists _, _.
  split; [apply (init_document path w d items es H Hit Hes)|].
  rewrite Hn. simpl. split; [reflexivity|]. split; [reflexivity|].
  intros event. apply add_event_raises. simpl.
  destruct v; try discriminate; reflexivity.
Qed.

Lemma non_numeric_next_id_witness :
  exists self w1,
    ScheduleManager_init "s.json"
      (mkWorld [] {["s.json" := Document (PDict [("next_id", PStr "7")])]} []) =
    (Ok self, w1) /\
    next_id self = PStr "7" /\
    trace w1 = [] /\
    forall event,
      add_event self event w1 =
      (Raise TypeError, with_heap (alter (set_id (PStr "7")) event (heap w1)) w1).
Proof.
  refine (non_numeric_next_id "s.json"
            (mkWorld [] {["s.json" := Document (PDict [("next_id", PStr "7")])]} [])
            [("next_id", PStr "7")] (PStr "7") [] [] _ _ _ _ _).
  - reflexivity.
  - reflexivity.
  - reflexivity.
  - reflexivity.
  - constructor.
Defined.

(** ** Write-through *)

Lemma reload_persist self w : reloads self (persist self w).
Proof.
  unfold reloads. eexists _, _. split.
  - apply (init_document _ _
             [("next_id", next_id self);
              ("events", PList (map to_dict (map (deref w) (events self))))]
             (map to_dict (map (deref w) (events self)))
             (map (deref w) (events self))).
    + simpl. apply lookup_insert_eq.
    + reflexivity.
    + induction (map (deref w) (events self)) as [|e es IH]; simpl; constructor.
      * apply event_of_to_dict.
      * exact IH.
  - simpl. split; [|auto]. unfold snapshot; simpl.
    rewrite map_deref_fresh. reflexivity.
Qed.

(** X3.  Every mutating call that succeeds leaves the file in step with
    the store: after an [add_event] that returns, an [update_event] that
    returns [True] or a [delete_event] that returns [True], a manager
    constructed on the same file has the same [next_id] and events with the
    same fields in the same order, and its load prints no warning. *)
Theorem write_through (self self' : ScheduleManager) (w w' : World) :
  (forall event event',
      add_event self event w = (Ok (self', event'), w') -> reloads self' w') /\
  (forall event_id title' date' time' description',
      update_event self event_id title' date' time' description' w =
        (Ok (self', true), w') ->
      reloads self' w') /\
  (forall event_id,
      delete_event self event_id w = (Ok (self', true), w') -> reloads self' w').
Proof.
  split; [|split].
  - intros event event' H.
    destruct (py_add1 (next_id self)) as [n'|e] eqn:Hn.
    + rewrite (add_event_ok self event w n' Hn) in H. inversion H; subst.
      apply reload_persist.
    + rewrite (add_event_raises self event w e Hn) in H. discriminate.
  - intros z t d ti de H.
    destruct (get_event_loop w z (events self)) as [event|] eqn:Hg.
    + rewrite (update_event_found self w z event t d ti de Hg) in H.
      inversion H; subst. apply reload_persist.
    + rewrite (update_event_missing self w z t d ti de Hg) in H. discriminate.
  - intros z H.
    destruct (get_event_loop w z (events self)) as [event|] eqn:Hg.
    + apply get_event_loop_some in Hg as (pre & post & Hev & Hpre & Hid).
      rewrite (delete_event_found self w z pre event post Hev Hpre Hid) in H.
      inversion H; subst. apply reload_persist.
    + rewrite (delete_event_missing self w z Hg) in H. discriminate.
Qed.

Lemma write_through_witness :
  reloads (mkManager "s.json" [] (PInt 2))
    (persist (mkManager "s.json" [] (PInt 2))
      (mkWorld [mkEvent (PStr "A") (PStr "2026-01-15") (PStr "14:00") (PStr "") (PInt 1)]
               ∅ [])).
Proof.
  refine (proj2 (proj2 (write_through (mkManager "s.json" [0%nat] (PInt 2)) _
            (mkWorld [mkEvent (PStr "A") (PStr "2026-01-15") (PStr "14:00") (PStr "")
                              (PInt 1)] ∅ []) _)) 1 _).
  reflexivity.
Defined.

(** ** Loading: what the file may hold *)

Lemma from_dict_all_type_error good es bad rest : forall w,
  Forall2 (fun item e => event_of item = Some e) good es ->
  is_dict bad = false ->
  from_dict_all (good ++ bad :: rest) w =
  (Raise TypeError, with_heap (heap w ++ es) w).
Proof.
  intros w H Hbad. revert w.
  induction H as [|item e good es He _ IH]; intros w; simpl.
  - unfold bind at 1. rewrite (from_dict_not_dict bad w Hbad).
    unfold with_heap. rewrite app_nil_r. destruct w; reflexivity.
  - destruct item as [| | | | |d]; try discriminate. simpl in He.
    unfold bind at 1. rewrite (from_dict_ok d e w He).
    unfold bind at 1. rewrite IH. unfold with_heap; simpl.
    rewrite <- app_assoc. reflexivity.
Qed.

(** X5.  What [load_events] does when the [events] entry of the file is not
    a list of mappings.  A number, a boolean or [null] is not iterable: the
    constructor raises [TypeError], which is not caught.  The empty string
    and the empty mapping iterate over nothing: the store loads empty, with
    the [next_id] of the file.  A non-empty string or mapping, and a list
    whose first item that is not a well-formed event is not a mapping, make
    [from_dict] raise [TypeError], not caught either; no warning is
    printed. *)
Theorem load_events_not_a_list (path : string) (w : World)
    (d : list (string * pyval)) (raw : pyval) :
  disk w !! path = Some (Document (PDict d)) ->
  assoc "events" d = Some raw ->
  (raw = PNone \/ (exists b, raw = PBool b) \/ (exists z, raw = PInt z) ->
   ScheduleManager_init path w = (Raise TypeError, w)) /\
  (raw = PStr "" \/ raw = PDict [] ->
   ScheduleManager_init path w =
   (Ok (mkManager path [] (default (PInt 1) (assoc "next_id" d))), w)) /\
  ((exists c s, raw = PStr (String c s)) \/ (exists kv d', raw = PDict (kv :: d')) ->
   ScheduleManager_init path w = (Raise TypeError, w)) /\
  (forall good es bad rest,
      raw = PList (good ++ bad :: rest) ->
      Forall2 (fun item e => event_of item = Some e) good es ->
      is_dict bad = false ->
      ScheduleManager_init path w =
      (Raise TypeError, with_heap (heap w ++ es) w)).
Proof.
  intros H Hraw.
  split; [|split; [|split]].
  - intros Hcase. open_file H. rewrite Hraw.
    destruct Hcase as [->|[[b ->]|[z ->]]]; reflexivity.
  - intros Hcase.
    rewrite (init_document path w d [] [] H); [| |constructor].
    + simpl. rewrite app_nil_r. destruct w; reflexivity.
    + rewrite Hraw. destruct Hcase as [->| ->]; reflexivity.
  - intros Hcase. open_file H. rewrite Hraw.
    destruct Hcase as [(c & s & ->)|(kv & d' & ->)]; reflexivity.
  - intros good es bad rest -> Hgood Hbad. open_file H. rewrite Hraw. simpl.
    rewrite (from_dict_all_type_error good es bad rest w Hgood Hbad). reflexivity.
Qed.

Lemma load_events_not_a_list_witness :
  ScheduleManager_init "s.json"
    (mkWorld [] {["s.json" := Document (PDict [("events", PInt 3)])]} []) =
  (Raise TypeError,
   mkWorld [] {["s.json" := Document (PDict [("events", PInt 3)])]} []) /\
  ScheduleManager_init "s.json"
    (mkWorld [] {["s.json" := Document (PDict [("events", PStr "")])]} []) =
  (Ok (mkManager "s.json" [] (PInt 1)),
   mkWorld [] {["s.json" := Document (PDict [("events", PStr "")])]} []) /\
  ScheduleManager_init "s.json"
    (mkWorld [] {["s.json" := Document (PDict [("events", PStr "ab")])]} []) =
  (Raise TypeError,
   mkWorld [] {["s.json" := Document (PDict [("events", PStr "ab")])]} []) /\
  ScheduleManager_init "s.json"
    (mkWorld [] {["s.json" := Document (PDict [("events", PList [PInt 5])])]} []) =
  (Raise TypeError,
   mkWorld [] {["s.json" := Document (PDict [("events", PList [PInt 5])])]} []).
Proof.
  split; [|split; [|split]].
  - refine (proj1 (load_events_not_a_list "s.json" _ [("events", PInt 3)] (PInt 3)
                     _ _) _).
    + reflexivity.
    + reflexivity.
    + right; right. exists 3. reflexivity.
  - refine (proj1 (proj2 (load_events_not_a_list "s.json" _ [("events", PStr "")]
                            (PStr "") _ _)) _).
    + reflexivity.
    + reflexivity.
    + left. reflexivity.
  - refine (proj1 (proj2 (proj2 (load_events_not_a_list "s.json" _
                                   [("events", PStr "ab")] (PStr "ab") _ _))) _).
    + reflexivity.
    + reflexivity.
    + left. exists "a"%char, "b". reflexivity.
  - refine (proj2 (proj2 (proj2 (load_events_not_a_list "s.json" _
                                   [("events", PList [PInt 5])] (PList [PInt 5]) _ _)))
                  [] [] (PInt 5) [] _ _ _).
    + reflexivity.
    + reflexivity.
    + reflexivity.
    + constructor.
    + reflexivity.
Defined.

(** X6.  A file whose events carry pairwise distinct integer ids, all below
    an integer [next_id], loads into a store that satisfies the data-model
    invariant. *)
Theorem load_establishes_invariant (path : string) (w : World)
    (d : list (string * pyval)) (n : Z) (items : list pyval) (es : list Event)
    (ks : list Z) :
  disk w !! path = Some (Document (PDict d)) ->
  assoc "next_id" d = Some (PInt n) ->
  py_iter (default (PList []) (assoc "events" d)) = Ok items ->
  Forall2 (fun item e => event_of item = Some e) items es ->
  map id es = map PInt ks ->
  NoDup ks ->
  Forall (fun k => k < n) ks ->
  exists self w',
    ScheduleManager_init path w = (Ok self, w') /\
    snapshot self w' = es /\
    store_inv self w'.
Proof.
  intros H Hn Hit Hes Hids Hnd Hlt. eexists _, _.
  split; [apply (init_document path w d items es H Hit Hes)|].
  assert (Hsnap : snapshot
            (mkManager path (seq (List.length (heap w)) (List.length es))
                       (default (PInt 1) (assoc "next_id" d)))
            (mkWorld (heap w ++ es) (disk w) (trace w)) = es).
  { unfold snapshot; simpl. apply map_deref_fresh. }
  split; [exact Hsnap|].
  exists n, ks. split; [simpl; rewrite Hn; reflexivity|].
  split; [|auto].
  rewrite <- Hids. pose proof (f_equal (map id) Hsnap) as Hm. rewrite <- Hm.
  unfold ids, snapshot. rewrite map_map. reflexivity.
Qed.

Lemma load_establishes_invariant_witness :
  exists self w',
    ScheduleManager_init "s.json"
      (mkWorld []
         {["s.json" :=
             Document (PDict [("next_id", PInt 3);
                              ("events",
                               PList [PDict [("id", PInt 2); ("title", PStr "A");
                                             ("date", PStr "2026-01-15");
                                             ("time", PStr "14:00")]])])]} []) =
    (Ok self, w') /\
    snapshot self w' =
      [mkEvent (PStr "A") (PStr "2026-01-15") (PStr "14:00") (PStr "") (PInt 2)] /\
    store_inv self w'.
Proof.
  refine (load_establishes_invariant "s.json" _
            [("next_id", PInt 3);
             ("events", PList [PDict [("id", PInt 2); ("title", PStr "A");
                                      ("date", PStr "2026-01-15");
                                      ("time", PStr "14:00")]])]
            3
            [PDict [("id", PInt 2); ("title", PStr "A"); ("date", PStr "2026-01-15");
                    ("time", PStr "14:00")]]
            [mkEvent (PStr "A") (PStr "2026-01-15") (PStr "14:00") (PStr "") (PInt 2)]
            [2] _ _ _ _ _ _ _).
  - reflexivity.
  - reflexivity.
  - reflexivity.
  - repeat constructor.
  - reflexivity.
  - apply NoDup_singleton.
  - constructor; [lia|constructor].
Defined.

(** X7.  The invariant is kept from any store that has it, not only from
    the empty one: on a store with integer [next_id = n] that satisfies the
    invariant, a sequence of calls in which every [add_event] gets an
    existing object that is not in the collection never raises, hands out
    the ids [n], [n + 1], ... in call order, and leaves the invariant true
    after every call. *)
Theorem invariant_preserved (self : ScheduleManager) (w : World) (n : Z)
    (ops : list op) (k : nat) :
  store_inv self w ->
  next_id self = PInt n ->
  admissible ops self w = true ->
  exists self' rs w',
    run (take k ops) self w = (Ok (self', rs), w') /\
    store_inv self' w' /\
    add_ids rs = map PInt (count_from n (List.length (add_ids rs))) /\
    next_id self' = PInt (n + Z.of_nat (List.length (add_ids rs))).
Proof.
  intros Hinv Hn Hadm.
  exact (run_inv (take k ops) self w n Hinv Hn (all_steps_take _ ops k _ _ Hadm)).
Qed.

Lemma invariant_preserved_witness :
  exists self' rs w',
    run (take 2 [OpDelete 1; OpAdd 1%nat]) (mkManager "s.json" [0%nat] (PInt 2))
      (mkWorld [mkEvent (PStr "A") (PStr "2026-01-15") (PStr "14:00") (PStr "") (PInt 1);
                mkEvent (PStr "B") (PStr "2026-01-16") (PStr "10:30") (PStr "") PNone]
               ∅ []) = (Ok (self', rs), w') /\
    store_inv self' w' /\
    add_ids rs = map PInt (count_from 2 (List.length (add_ids rs))) /\
    next_id self' = PInt (2 + Z.of_nat (List.length (add_ids rs))).
Proof.
  refine (invariant_preserved (mkManager "s.json" [0%nat] (PInt 2)) _ 2
            [OpDelete 1; OpAdd 1%nat] 2 store_inv_example _ _).
  - reflexivity.
  - vm_compute. reflexivity.
Defined.

(** ** Deleting, and ids that are not unique *)

Lemma get_event_loop_skip w z pre post :
  Forall (fun e => has_id w z e = false) pre ->
  get_event_loop w z (pre ++ post) = get_event_loop w z post.
Proof.
  induction 1 as [|e pre He _ IH]; simpl; [reflexivity|].
  fold (has_id w z e). rewrite He. exact IH.
Qed.

(** X8.  When an event of the collection carries the id, [delete_event]
    returns [True] and takes out one entry, the first that carries the id:
    the entries before and after it keep their order, no object is changed
    (the removed event keeps its id), [next_id] is as before, and the file
    is rewritten.  A [get_event] for the same id then searches what came
    after the removed entry: it finds the next entry with that id, if the
    collection held one. *)
Theorem delete_event_frame (self : ScheduleManager) (w : World) (event_id : Z) :
  Exists (fun e => has_id w event_id e = true) (events self) ->
  exists pre event post self' w',
    events self = pre ++ event :: post /\
    Forall (fun e => has_id w event_id e = false) pre /\
    has_id w event_id event = true /\
    delete_event self event_id w = (Ok (self', true), w') /\
    events self' = pre ++ post /\
    next_id self' = next_id self /\
    heap w' = heap w /\
    disk w' = <[data_file self := Document (saved self' w')]> (disk w) /\
    trace w' = trace w ++ [Write (data_file self) (saved self' w')] /\
    get_event self' event_id w' = (Ok (get_event_loop w event_id post), w').
Proof.
  intros Hex. destruct (get_event_loop_found _ _ _ Hex) as [event Hg].
  apply get_event_loop_some in Hg as (pre & post & Hev & Hpre & Hid).
  exists pre, event, post. eexists _, _.
  split; [exact Hev|]. split; [exact Hpre|]. split; [exact Hid|].
  split; [apply (delete_event_found self w event_id pre event post Hev Hpre Hid)|].
  repeat (split; [reflexivity|]).
  unfold get_event. simpl. f_equal. f_equal.
  rewrite <- (get_event_loop_skip w event_id pre post Hpre).
  apply get_event_loop_ext. apply Forall_forall. intros e _. reflexivity.
Qed.

Lemma delete_event_frame_witness :
  exists pre event post self' w',
    [0%nat; 1%nat] = pre ++ event :: post /\
    delete_event (mkManager "s.json" [0%nat; 1%nat] (PInt 2)) 1
      (mkWorld [mkEvent (PStr "A") (PStr "2026-01-15") (PStr "14:00") (PStr "") (PInt 1);
                mkEvent (PStr "B") (PStr "2026-01-16") (PStr "10:30") (PStr "") (PInt 1)]
               ∅ []) = (Ok (self', true), w') /\
    events self' = pre ++ post /\
    get_event self' 1 w' =
      (Ok (get_event_loop
             (mkWorld [mkEvent (PStr "A") (PStr "2026-01-15") (PStr "14:00") (PStr "")
                               (PInt 1);
                       mkEvent (PStr "B") (PStr "2026-01-16") (PStr "10:30") (PStr "")
                               (PInt 1)] ∅ []) 1 post), w').
Proof.
  destruct (delete_event_frame (mkManager "s.json" [0%nat; 1%nat] (PInt 2))
              (mkWorld [mkEvent (PStr "A") (PStr "2026-01-15") (PStr "14:00") (PStr "")
                                (PInt 1);
                        mkEvent (PStr "B") (PStr "2026-01-16") (PStr "10:30") (PStr "")
                                (PInt 1)] ∅ []) 1)
    as (pre & event & post & self' & w' & Hev & _ & _ & Hdel & Hev' & _ & _ & _ & _ & Hg).
  - constructor. reflexivity.
  - exists pre, event, post, self', w'. auto.
Defined.

(** X9.  [add_event] does not look at the ids in the collection.  When an
    entry already carries the value of [next_id] (a file edited by hand can
    say so), the event that is added gets the same id, and [get_event] for
    that id returns the older entry, not the event just added. *)
Theorem add_shadowed_by_existing_id (self : ScheduleManager) (w : World)
    (event : loc) (n : Z) :
  next_id self = PInt n ->
  Exists (fun e => has_id w n e = true) (events self) ->
  ~ In event (events self) ->
  (event < List.length (heap w))%nat ->
  exists self' w' older,
    add_event self event w = (Ok (self', event), w') /\
    id (deref w' event) = PInt n /\
    get_event self' n w' = (Ok (Some older), w') /\
    In older (events self) /\
    older <> event /\
    has_id w' n older = true.
Proof.
  intros Hn Hex Hfresh Hscope.
  destruct (get_event_loop_found _ _ _ Hex) as [older Hg].
  pose proof Hg as Hsome.
  apply get_event_loop_some in Hsome as (pre & post & Hev & Hpre & Hid).
  assert (Hin : In older (events self)).
  { rewrite Hev. apply in_or_app. right; left; reflexivity. }
  assert (Hne : older <> event) by (intros ->; contradiction).
  eexists _, _, older. split; [apply add_event_world; exact Hn|].
  assert (Hkeep : forall e, In e (events self) ->
            id (deref (persist (mkManager (data_file self) (events self ++ [event])
                                          (PInt (n + 1)))
                         (with_heap (alter (set_id (PInt n)) event (heap w)) w)) e) =
            id (deref w e)).
  { intros e He. rewrite deref_persist. unfold with_heap.
    rewrite deref_alter_ne; [reflexivity|]. intros ->. contradiction. }
  split; [|split; [|split; [exact Hin|split; [exact Hne|]]]].
  - rewrite deref_persist. unfold with_heap. rewrite deref_alter_eq by exact Hscope.
    reflexivity.
  - unfold get_event. f_equal. f_equal. simpl.
    apply get_event_loop_some. exists pre, (post ++ [event]).
    split; [rewrite Hev, <- app_assoc; reflexivity|]. split.
    + rewrite Forall_forall in Hpre. apply Forall_forall.
      intros e He. rewrite (has_id_ext _ w n e).
      * apply Hpre. exact He.
      * apply Hkeep. rewrite Hev. apply in_or_app. left.
        apply list_elem_of_In. exact He.
    + rewrite (has_id_ext _ w n older (Hkeep older Hin)). exact Hid.
  - rewrite (has_id_ext _ w n older (Hkeep older Hin)). exact Hid.
Qed.

Lemma add_shadowed_by_existing_id_witness :
  exists self' w' older,
    add_event (mkManager "s.json" [0%nat] (PInt 1)) 1%nat
      (mkWorld [mkEvent (PStr "A") (PStr "2026-01-15") (PStr "14:00") (PStr "") (PInt 1);
                mkEvent (PStr "B") (PStr "2026-01-16") (PStr "10:30") (PStr "") PNone]
               ∅ []) = (Ok (self', 1%nat), w') /\
    id (deref w' 1%nat) = PInt 1 /\
    get_event self' 1 w' = (Ok (Some older), w') /\
    older <> 1%nat.
Proof.
  destruct (add_shadowed_by_existing_id (mkManager "s.json" [0%nat] (PInt 1))
              (mkWorld [mkEvent (PStr "A") (PStr "2026-01-15") (PStr "14:00") (PStr "")
                                (PInt 1);
                        mkEvent (PStr "B") (PStr "2026-01-16") (PStr "10:30") (PStr "")
                                PNone] ∅ []) 1%nat 1)
    as (self' & w' & older & Hadd & Hid & Hg & _ & Hne & _).
  - reflexivity.
  - constructor. reflexivity.
  - simpl. intros [H|[]]. discriminate.
  - simpl. lia.
  - exists self', w', older. auto.
Defined.

(** ** [Event] and its mapping *)

(** X12.  [from_dict(to_dict(e))] builds a new object with the fields of
    [e], id included, whatever values the fields hold; the objects that
    existed, [e] among them, are not touched. *)
Theorem event_dict_roundtrip (e : Event) (w : World) :
  from_dict (to_dict e) w =
  (Ok (List.length (heap w)), with_heap (heap w ++ [e]) w) /\
  deref (with_heap (heap w ++ [e]) w) (List.length (heap w)) = e /\
  forall l, (l < List.length (heap w))%nat ->
            deref (with_heap (heap w ++ [e]) w) l = deref w l.
Proof.
  split; [|split].
  - unfold to_dict. apply from_dict_ok. destruct e; reflexivity.
  - unfold with_heap.
    replace (List.length (heap w)) with (List.length (heap w) + 0)%nat at 1 by lia.
    rewrite deref_app_r. reflexivity.
  - intros l Hl. unfold with_heap. rewrite deref_app_l by exact Hl. reflexivity.
Qed.

(** ** The unfiltered listing *)

Lemma pair_leb_refl a : pair_leb a a = true.
Proof. unfold pair_leb, String.leb. rewrite !str_compare_refl. reflexivity. Qed.

Lemma pair_leb_antisym a b :
  pair_leb a b = true -> pair_leb b a = true -> a = b.
Proof.
  unfold pair_leb. rewrite (String.compare_antisym b.1 a.1).
  destruct (String.compare a.1 b.1) eqn:H1; simpl; try discriminate.
  apply String.compare_eq_iff in H1. intros H2 H3.
  pose proof (String.leb_antisym _ _ H2 H3) as H4.
  destruct a, b; simpl in *; congruence.
Qed.

Lemma with_key_head {A} (key : A -> string * string) x l :
  with_key key (key x) (x :: l) = x :: with_key key (key x) l.
Proof.
  unfold with_key. simpl. rewrite bool_decide_eq_true_2 by reflexivity. reflexivity.
Qed.

Lemma with_key_In {A} (key : A -> string * string) k x l :
  In x (with_key key k l) -> In x l.
Proof. unfold with_key. intros H. apply filter_In in H. tauto. Qed.

(** Two ascending lists that list, under every key, the same entries in the
    same order are the same list. *)
Lemma stable_sorted_unique {A} (key : A -> string * string) (l1 : list A) :
  forall l2,
    StronglySorted (fun a b => pair_leb (key a) (key b) = true) l1 ->
    StronglySorted (fun a b => pair_leb (key a) (key b) = true) l2 ->
    (forall k, with_key key k l1 = with_key key k l2) ->
    l1 = l2.
Proof.
  induction l1 as [|x l1 IH]; intros [|y l2] H1 H2 Hk.
  - reflexivity.
  - specialize (Hk (key y)). rewrite with_key_head in Hk. discriminate.
  - specialize (Hk (key x)). rewrite with_key_head in Hk. discriminate.
  - apply StronglySorted_inv in H1 as [H1 Hx].
    apply StronglySorted_inv in H2 as [H2 Hy].
    assert (Hxy : pair_leb (key x) (key y) = true).
    { assert (Hin : In y (x :: l1)).
      { apply (with_key_In key (key y)). rewrite (Hk (key y)), with_key_head.
        left; reflexivity. }
      destruct Hin as [->|Hin]; [apply pair_leb_refl|].
      rewrite Forall_forall in Hx. apply Hx. apply list_elem_of_In. exact Hin. }
    assert (Hyx : pair_leb (key y) (key x) = true).
    { assert (Hin : In x (y :: l2)).
      { apply (with_key_In key (key x)). rewrite <- (Hk (key x)), with_key_head.
        left; reflexivity. }
      destruct Hin as [->|Hin]; [apply pair_leb_refl|].
      rewrite Forall_forall in Hy. apply Hy. apply list_elem_of_In. exact Hin. }
    pose proof (pair_leb_antisym _ _ Hxy Hyx) as Heq.
    pose proof (Hk (key x)) as Hhead.
    rewrite with_key_head in Hhead. rewrite Heq, with_key_head in Hhead.
    injection Hhead as -> _.
    f_equal. apply IH; [exact H1|exact H2|].
    intros k. specialize (Hk k). unfold with_key in *. simpl in Hk.
    destruct (bool_decide (key y = k)); [injection Hk as Hk|]; exact Hk.
Qed.

(** X10.  On a store whose dates and times are strings the unfiltered
    listing is determined by its specification: a list that is in ascending
    order of the [(date, time)] pairs and that lists, for every pair, the
    events of the collection with that pair in store order, is the list
    [list_events] returns.  In particular the result does not depend on the
    sorting algorithm, as long as it is stable. *)
Theorem listing_is_the_stable_sort (self : ScheduleManager) (w : World)
    (r : list loc) :
  Forall (fun e => has_str_key w e = true) (events self) ->
  StronglySorted (key_le w) r ->
  (forall k, with_key (str_key w) k r = with_key (str_key w) k (events self)) ->
  list_events self None w = (Ok r, w).
Proof.
  intros Hstr Hsorted Hstable.
  unfold list_events. simpl. rewrite (sorted_str w _ Hstr). do 2 f_equal.
  apply (stable_sorted_unique (str_key w)).
  - apply sort_pure_sorted.
  - exact Hsorted.
  - intros k. rewrite sort_pure_stable. symmetry. apply Hstable.
Qed.

Lemma listing_is_the_stable_sort_witness :
  list_events (mkManager "s.json" [0%nat; 1%nat] (PInt 3)) None
    (mkWorld [mkEvent (PStr "A") (PStr "2026-01-16") (PStr "14:00") (PStr "") (PInt 1);
              mkEvent (PStr "B") (PStr "2026-01-15") (PStr "10:30") (PStr "") (PInt 2)]
             ∅ []) =
  (Ok [1%nat; 0%nat],
   mkWorld [mkEvent (PStr "A") (PStr "2026-01-16") (PStr "14:00") (PStr "") (PInt 1);
            mkEvent (PStr "B") (PStr "2026-01-15") (PStr "10:30") (PStr "") (PInt 2)]
           ∅ []).
Proof.
  refine (listing_is_the_stable_sort (mkManager "s.json" [0%nat; 1%nat] (PInt 3)) _
            [1%nat; 0%nat] _ _ _).
  - repeat constructor.
  - repeat constructor.
  - intros k. unfold with_key, str_key, deref. simpl.
    destruct (bool_decide (("2026-01-15", "10:30") = k)) eqn:H1;
      destruct (bool_decide (("2026-01-16", "14:00") = k)) eqn:H2; try reflexivity.
    apply bool_decide_eq_true in H1, H2. congruence.
Defined.

Lemma sorted_unorderable w x l :
  l <> [] ->
  ForallOrdPairs (unorderable w) (x :: l) ->
  sorted tuple_lt (sort_key w) (x :: l) = Raise TypeError.
Proof.
  revert x. induction l as [|y l IH]; intros x Hne Hpairs; [congruence|].
  inversion Hpairs as [|? ? Hx Hrest]; subst.
  destruct l as [|z l].
  - simpl. inversion Hx as [|? ? [_ Hyx] _]; subst. rewrite Hyx. reflexivity.
  - change (sorted tuple_lt (sort_key w) (x :: y :: z :: l))
      with (res_bind (sorted tuple_lt (sort_key w) (y :: z :: l))
                     (insert_sorted tuple_lt (sort_key w) x)).
    rewrite (IH y); [reflexivity|discriminate|exact Hrest].
Qed.

(** X11.  The unfiltered listing compares events only with each other.  A
    collection of fewer than two events is returned as it is, whatever its
    fields hold.  A collection of two or more events no two of which can be
    ordered by [<] on their [(date, time)] pairs (a date that is [null] in
    the file next to one that is a string, say) makes [list_events] raise
    [TypeError]; nothing is changed. *)
Theorem list_events_unorderable (self : ScheduleManager) (w : World) :
  ((List.length (events self) <= 1)%nat ->
   list_events self None w = (Ok (events self), w)) /\
  ((2 <= List.length (events self))%nat ->
   ForallOrdPairs (unorderable w) (events self) ->
   list_events self None w = (Raise TypeError, w)).
Proof.
  unfold list_events. simpl. split.
  - intros Hlen. destruct (events self) as [|x [|y l]]; simpl in *;
      [reflexivity|reflexivity|lia].
  - intros Hlen Hpairs. destruct (events self) as [|x [|y l]]; simpl in Hlen;
      [lia|lia|].
    rewrite (sorted_unorderable w x (y :: l)); [reflexivity|discriminate|exact Hpairs].
Qed.

Lemma list_events_unorderable_witness :
  list_events (mkManager "s.json" [0%nat] (PInt 2)) None
    (mkWorld [mkEvent (PStr "A") PNone (PInt 3) (PStr "") (PInt 1)] ∅ []) =
  (Ok [0%nat],
   mkWorld [mkEvent (PStr "A") PNone (PInt 3) (PStr "") (PInt 1)] ∅ []) /\
  list_events (mkManager "s.json" [0%nat; 1%nat] (PInt 3)) None
    (mkWorld [mkEvent (PStr "A") PNone (PStr "14:00") (PStr "") (PInt 1);
              mkEvent (PStr "B") (PStr "2026-01-15") (PStr "10:30") (PStr "") (PInt 2)]
             ∅ []) =
  (Raise TypeError,
   mkWorld [mkEvent (PStr "A") PNone (PStr "14:00") (PStr "") (PInt 1);
            mkEvent (PStr "B") (PStr "2026-01-15") (PStr "10:30") (PStr "") (PInt 2)]
           ∅ []).
Proof.
  split.
  - refine (proj1 (list_events_unorderable (mkManager "s.json" [0%nat] (PInt 2)) _) _).
    simpl. lia.
  - refine (proj2 (list_events_unorderable
                     (mkManager "s.json" [0%nat; 1%nat] (PInt 3)) _) _ _).
    + simpl. lia.
    + constructor; [|constructor; [constructor|constructor]].
      constructor; [|constructor]. split; reflexivity.
Defined.

(** * Properties of [schedule_cli.py] *)

(** ** The options of [update] *)

Lemma parse_options_ind (P : list string -> Prop) :
  P [] ->
  (forall a, P [a]) ->
  (forall a x rest, P rest -> P (x :: rest) -> P (a :: x :: rest)) ->
  forall args, P args.
Proof.
  intros Hnil Hone Hstep.
  assert (H : forall args, P args /\ forall a, P (a :: args)).
  { induction args as [|x rest [IH1 IH2]].
    - split; [exact Hnil|exact Hone].
    - split; [apply IH2|]. intros a. apply Hstep; [exact IH1|apply IH2]. }
  intros args. apply H.
Qed.

Lemma parse_options_overlay args :
  forall acc, parse_options args acc = overlay (parse_options args no_options) acc.
Proof.
  induction args as [| a | a x rest IH1 IH2] using parse_options_ind; intros acc.
  - destruct acc; reflexivity.
  - destruct acc; reflexivity.
  - simpl.
    destruct (String.eqb a "--title");
      [rewrite IH1, (IH1 (mkOptions _ _ _ _));
       destruct (parse_options rest no_options) as [[?|] [?|] [?|] [?|]];
       reflexivity|].
    destruct (String.eqb a "--date");
      [rewrite IH1, (IH1 (mkOptions _ _ _ _));
       destruct (parse_options rest no_options) as [[?|] [?|] [?|] [?|]];
       reflexivity|].
    destruct (String.eqb a "--time");
      [rewrite IH1, (IH1 (mkOptions _ _ _ _));
       destruct (parse_options rest no_options) as [[?|] [?|] [?|] [?|]];
       reflexivity|].
    destruct (String.eqb a "--description");
      [rewrite IH1, (IH1 (mkOptions _ _ _ _));
       destruct (parse_options rest no_options) as [[?|] [?|] [?|] [?|]];
       reflexivity|].
    apply IH2.
Qed.

Lemma parse_options_app a1 :
  forall a2 acc,
    complete a1 = true ->
    parse_options (a1 ++ a2) acc = parse_options a2 (parse_options a1 acc).
Proof.
  induction a1 as [| a | a x rest IH1 IH2] using parse_options_ind; intros a2 acc Hc.
  - reflexivity.
  - simpl in Hc. unfold is_flag in Hc. simpl.
    destruct a2 as [|y a2]; [reflexivity|].
    destruct (String.eqb a "--title"); [discriminate|].
    destruct (String.eqb a "--date"); [discriminate|].
    destruct (String.eqb a "--time"); [discriminate|].
    destruct (String.eqb a "--description"); [discriminate|].
    reflexivity.
  - change (complete (a :: x :: rest))
      with (if is_flag a then complete rest else complete (x :: rest)) in Hc.
    unfold is_flag in Hc. simpl.
    destruct (String.eqb a "--title"); [apply IH1; exact Hc|].
    destruct (String.eqb a "--date"); [apply IH1; exact Hc|].
    destruct (String.eqb a "--time"); [apply IH1; exact Hc|].
    destruct (String.eqb a "--description"); [apply IH1; exact Hc|].
    apply (IH2 a2 acc Hc).
Qed.

(** X13.  How [update] reads its options.  The arguments are read from left
    to right in steps, a flag together with the argument after it, or one
    argument that is not a flag, which is skipped.  After a prefix made of
    whole steps: the rest is read as if it came first, on top of what the
    prefix set; one last argument alone changes nothing, flag or not; and a
    [--title] takes the argument after it as the title even when that
    argument is itself a flag, unless a later [--title] replaces it.
    Options set later replace those set earlier, the others are kept. *)
Theorem parse_options_steps (a1 : list string) :
  complete a1 = true ->
  (forall a2 acc,
      parse_options (a1 ++ a2) acc = parse_options a2 (parse_options a1 acc)) /\
  (forall a acc, parse_options (a1 ++ [a]) acc = parse_options a1 acc) /\
  (forall x a2,
      opt_title (parse_options (a1 ++ "--title" :: x :: a2) no_options) =
      from_option Some (Some x) (opt_title (parse_options a2 no_options))) /\
  (forall a2 acc,
      parse_options (a1 ++ a2) acc =
      overlay (parse_options a2 no_options) (overlay (parse_options a1 no_options) acc)).
Proof.
  intros Hc. split; [|split; [|split]].
  - intros a2 acc. apply parse_options_app. exact Hc.
  - intros a acc. rewrite (parse_options_app a1 [a] acc Hc). reflexivity.
  - intros x a2. rewrite (parse_options_app a1 _ no_options Hc). simpl.
    rewrite parse_options_overlay. simpl.
    destruct (opt_title (parse_options a2 no_options)); reflexivity.
  - intros a2 acc. rewrite (parse_options_app a1 a2 acc Hc).
    rewrite parse_options_overlay, (parse_options_overlay a1 acc). reflexivity.
Qed.

Lemma parse_options_steps_witness :
  opt_title (parse_options (["x"; "--time"; "15:00"] ++
                            "--title" :: "--date" :: ["--title"; "B"; "--date"])
                           no_options) = Some "B" /\
  parse_options (["x"; "--time"; "15:00"] ++ ["--date"]) no_options =
  parse_options ["x"; "--time"; "15:00"] no_options.
Proof.
  split.
  - refine (proj1 (proj2 (proj2 (parse_options_steps ["x"; "--time"; "15:00"] _)))
                  "--date" ["--title"; "B"; "--date"]).
    reflexivity.
  - refine (proj1 (proj2 (parse_options_steps ["x"; "--time"; "15:00"] _))
                  "--date" no_options).
    reflexivity.
Defined.

(** ** What a run writes *)

Lemma written_print w line :
  written (mkWorld (heap w) (disk w) (trace w ++ [Print line])) = written w.
Proof.
  unfold written; simpl. rewrite List.filter_app. simpl. rewrite app_nil_r. reflexivity.
Qed.

Lemma written_heap w h : written (with_heap h w) = written w.
Proof. reflexivity. Qed.

Lemma quiet_say line : quiet (say line).
Proof. intros w. apply written_print. Qed.

Lemma quiet_sys_exit {A} code : quiet (@sys_exit A code).
Proof. intros w. reflexivity. Qed.

Lemma quiet_pbind {A B} (c : Proc A) (k : A -> Proc B) :
  quiet c -> (forall a, quiet (k a)) -> quiet (pbind c k).
Proof.
  intros Hc Hk w. unfold pbind. specialize (Hc w).
  destruct (c w) as [[a|e|code] w']; simpl in *; [|exact Hc|exact Hc].
  rewrite (Hk a w'). exact Hc.
Qed.

Lemma quiet_except {A} (body handler : Proc A) :
  quiet body -> quiet handler -> quiet (except_ValueError body handler).
Proof.
  intros Hb Hh w. unfold except_ValueError. specialize (Hb w).
  destruct (body w) as [[a|e|code] w']; simpl in *; try exact Hb.
  destruct e; simpl; try exact Hb. rewrite (Hh w'). exact Hb.
Qed.

Lemma quiet_call {A} (c : M A) :
  (forall w, written (c w).2 = written w) -> quiet (call c).
Proof.
  intros Hc w. unfold call. specialize (Hc w).
  destruct (c w) as [[a|e] w']; exact Hc.
Qed.




Lemma written_init path w : written (ScheduleManager_init path w).2 = written w.
Proof.
  destruct (init_reads_only path w) as (Hd & _ & Ht).
  unfold written. rewrite Hd. f_equal.
  destruct Ht as [Ht|[Ht _]]; rewrite Ht; [reflexivity|].
  rewrite List.filter_app. simpl. apply app_nil_r.
Qed.

Section CommandLine.
Context {python : Builtins}.

Lemma quiet_say_event prefix event : quiet (say_event prefix event).
Proof. intros w. unfold say_event. apply quiet_say. Qed.

Lemma quiet_py_int s : quiet (py_int s).
Proof. intros w. unfold py_int. destruct (int_of_str s); reflexivity. Qed.

Lemma quiet_print_help : quiet print_help.
Proof. apply quiet_say. Qed.

Lemma quiet_cmd_list argv manager : quiet (cmd_list argv manager).
Proof.
  unfold cmd_list. apply quiet_pbind.
  - apply quiet_call. intros w. unfold list_events.
    destruct (truthy _); reflexivity.
  - assert (Heach : forall l,
      quiet ((fix each (l : list loc) : Proc unit :=
                match l with
                | [] => say rule
                | event :: l' => say_event "" event ;!; each l'
                end) l)).
    { induction l as [|e l IH]; [apply quiet_say|].
      apply quiet_pbind; [apply quiet_say_event|intros _; exact IH]. }
    intros [|event found]; [apply quiet_say|].
    apply quiet_pbind; [apply quiet_say|intros _].
    apply quiet_pbind; [apply quiet_say|intros _].
    apply (Heach (event :: found)).
Qed.

Lemma quiet_cmd_show argv manager : quiet (cmd_show argv manager).
Proof.
  unfold cmd_show. destruct (Nat.ltb _ _).
  - repeat (apply quiet_pbind; [apply quiet_say|intros _]). apply quiet_sys_exit.
  - apply quiet_except.
    + apply quiet_pbind; [apply quiet_py_int|intros z].
      apply quiet_pbind; [apply quiet_call; intros w; reflexivity|].
      intros [event|].
      * intros w. cbv zeta.
        apply (quiet_pbind (say _) (fun _ => _)); [apply quiet_say|intros _].
        repeat (apply quiet_pbind; [apply quiet_say|intros _]). apply quiet_say.
      * apply quiet_pbind; [apply quiet_say|intros _]. apply quiet_sys_exit.
    + apply quiet_pbind; [apply quiet_say|intros _]. apply quiet_sys_exit.
Qed.




Lemma quiet_no_command :
  quiet (say "Error: No command provided" ;!; print_help ;!; @sys_exit unit 1).
Proof.
  apply quiet_pbind; [apply quiet_say|intros _].
  apply quiet_pbind; [apply quiet_print_help|intros _]. apply quiet_sys_exit.
Qed.

Lemma quiet_unknown command :
  quiet (say ("Error: Unknown command '" +:+ command +:+ "'") ;!;
         print_help ;!; @sys_exit unit 1).
Proof.
  apply quiet_pbind; [apply quiet_say|intros _].
  apply quiet_pbind; [apply quiet_print_help|intros _]. apply quiet_sys_exit.
Qed.



(** X15.  Only the commands [add], [update] and [delete] write: a run
    without a command, or with a command that lowers to anything else
    ([help], [list], [show], an unknown word), leaves the file system as it
    was and makes no write, however it ends. *)
Theorem main_read_only_commands (argv : list string) (w : World) :
  (List.length argv < 2)%nat \/
  (str_lower (arg argv 1) <> "add" /\
   str_lower (arg argv 1) <> "update" /\
   str_lower (arg argv 1) <> "delete") ->
  disk (main argv w).2 = disk w /\
  List.filter is_Write (trace (main argv w).2) = List.filter is_Write (trace w).
Proof.
  intros Hcmd.
  assert (H : written (main argv w).2 = written w).
  { revert w. change (quiet (main argv)). unfold main.
    destruct (Nat.ltb (List.length argv) 2) eqn:Hlen; [apply quiet_no_command|].
    destruct Hcmd as [Hlt|(Hadd & Hupd & Hdel)].
    { apply Nat.ltb_ge in Hlen. lia. }
    apply quiet_pbind; [apply quiet_call; apply written_init|].
    intros manager.
    apply String.eqb_neq in Hadd, Hupd, Hdel. rewrite Hadd, Hupd, Hdel.
    destruct (String.eqb _ "help"); [apply quiet_print_help|].
    destruct (String.eqb _ "list"); [apply quiet_cmd_list|].
    destruct (String.eqb _ "show"); [apply quiet_cmd_show|].
    apply quiet_unknown. }
  unfold written in H. inversion H. auto.
Qed.

End CommandLine.

Lemma init_data_file path w manager w1 :
  ScheduleManager_init path w = (Ok manager, w1) -> data_file manager = path.
Proof.
  destruct (disk w !! path) as [[|v]|] eqn:H.
  - rewrite (init_malformed path w H). intros E; inversion E. reflexivity.
  - destruct (is_dict v) eqn:Hv.
    2:{ rewrite (init_not_dict path w v H Hv). discriminate. }
    destruct v as [| | | | |d]; try discriminate.
    open_file H.
    destruct (py_iter (default (PList []) (assoc "events" d))) as [items|e] eqn:Hit;
      simpl.
    2:{ assert (e = TypeError) as ->.
        { destruct (default (PList []) (assoc "events" d)); simpl in Hit; congruence. }
        simpl. discriminate. }
    destruct (from_dict_all items w) as [[evs|e] w'] eqn:Hf; simpl.
    + intros E; inversion E. reflexivity.
    + destruct (load_caught e); simpl; intros E; inversion E. reflexivity.
  - rewrite (init_absent path w H). intros E; inversion E. reflexivity.
Qed.

Lemma from_dict_scoped v w l w' :
  from_dict v w = (Ok l, w') -> (l < List.length (heap w'))%nat.
Proof.
  destruct v as [| | | | |d]; try discriminate.
  destruct (event_of_dict d) as [e|] eqn:He.
  - rewrite (from_dict_ok d e w He). intros E; inversion E; subst. simpl.
    rewrite length_app. simpl. lia.
  - destruct (from_dict_missing d w He) as (k & _ & _ & Hk). rewrite Hk. discriminate.
Qed.

Lemma from_dict_all_scoped items : forall w evs w',
  from_dict_all items w = (Ok evs, w') ->
  Forall (fun e => (e < List.length (heap w'))%nat) evs.
Proof.
  induction items as [|item items IH]; intros w evs w'; simpl.
  - intros E; inversion E. constructor.
  - unfold bind at 1.
    destruct (from_dict item w) as [[l|e] w1] eqn:H1; [|discriminate].
    unfold bind at 1.
    destruct (from_dict_all items w1) as [[ls|e] w2] eqn:H2; [|discriminate].
    intros E; inversion E; subst. constructor.
    + apply from_dict_scoped in H1. apply from_dict_all_heap in H2 as [es H2].
      rewrite H2, length_app. lia.
    + exact (IH _ _ _ H2).
Qed.

Lemma init_scoped path w manager w1 :
  ScheduleManager_init path w = (Ok manager, w1) ->
  Forall (fun e => (e < List.length (heap w1))%nat) (events manager).
Proof.
  destruct (disk w !! path) as [[|v]|] eqn:H.
  - rewrite (init_malformed path w H). intros E; inversion E. constructor.
  - destruct (is_dict v) eqn:Hv.
    2:{ rewrite (init_not_dict path w v H Hv). discriminate. }
    destruct v as [| | | | |d]; try discriminate.
    open_file H.
    destruct (py_iter (default (PList []) (assoc "events" d))) as [items|e] eqn:Hit;
      simpl.
    2:{ assert (e = TypeError) as ->.
        { destruct (default (PList []) (assoc "events" d)); simpl in Hit; congruence. }
        simpl. discriminate. }
    destruct (from_dict_all items w) as [[evs|e] w'] eqn:Hf; simpl.
    + intros E; inversion E; subst. simpl. exact (from_dict_all_scoped _ _ _ _ Hf).
    + destruct (load_caught e); simpl; intros E; inversion E. constructor.
  - rewrite (init_absent path w H). intros E; inversion E. constructor.
Qed.

Section CommandLineRuns.
Context {python : Builtins}.

Lemma main_after_init argv w manager w1 :
  (2 <= List.length argv)%nat ->
  ScheduleManager_init data_file_default w = (Ok manager, w1) ->
  main argv w =
  (let command := str_lower (arg argv 1) in
   if String.eqb command "help" then print_help
   else if String.eqb command "add" then cmd_add argv manager
   else if String.eqb command "list" then cmd_list argv manager
   else if String.eqb command "show" then cmd_show argv manager
   else if String.eqb command "update" then cmd_update argv manager
   else if String.eqb command "delete" then cmd_delete argv manager
   else
     say ("Error: Unknown command '" +:+ command +:+ "'") ;!;
     print_help ;!;
     sys_exit 1) w1.
Proof.
  intros Hlen Hinit. unfold main.
  rewrite (proj2 (Nat.ltb_ge _ _) Hlen).
  unfold pbind at 1, call at 1. rewrite Hinit. reflexivity.
Qed.

Lemma main_add_run argv w manager w1 n' :
  (5 <= List.length argv)%nat ->
  str_lower (arg argv 1) = "add" ->
  ScheduleManager_init data_file_default w = (Ok manager, w1) ->
  py_add1 (next_id manager) = Ok n' ->
  main argv w =
  (Returned tt,
   let manager' :=
     mkManager data_file_default (events manager ++ [List.length (heap w1)]) n' in
   let w2 := with_heap (heap w1 ++ [event_of_argv argv (next_id manager)]) w1 in
   mkWorld (heap w2)
           (<[data_file_default := Document (saved manager' w2)]> (disk w))
           (trace w1 ++
            [Write data_file_default (saved manager' w2);
             Print ("Event added successfully: " +:+
                    Event_str (event_of_argv argv (next_id manager)))])).
Proof.
  intros Hlen Hcmd Hinit Hn.
  pose proof (init_data_file _ _ _ _ Hinit) as Hfile.
  pose proof (written_init data_file_default w) as Hw.
  rewrite Hinit in Hw. unfold written in Hw. simpl in Hw. injection Hw as Hdisk _.
  rewrite (main_after_init argv w manager w1) by (try exact Hinit; lia).
  cbv zeta. rewrite Hcmd.
  change (String.eqb "add" "help") with false.
  change (String.eqb "add" "add") with true. cbv iota.
  unfold cmd_add. rewrite (proj2 (Nat.ltb_ge _ _) Hlen).
  assert (Hdesc : (if Nat.ltb 5 (List.length argv)
                   then String.concat " " (drop 5 argv) else "") =
                  String.concat " " (drop 5 argv)).
  { destruct (Nat.ltb 5 (List.length argv)) eqn:H5; [reflexivity|].
    apply Nat.ltb_ge in H5. rewrite drop_ge by lia. reflexivity. }
  cbv zeta. rewrite Hdesc.
  unfold pbind at 1, call at 1, Event_init, alloc. cbv beta iota.
  unfold pbind at 1, call at 1.
  rewrite (add_event_ok manager _ _ n' Hn).
  unfold say_event, say, call, print, persist, with_heap. simpl.
  rewrite alter_at_end, Hfile, Hdisk, <- app_assoc. simpl.
  replace (List.length (heap w1) + 0)%nat with (List.length (heap w1)) by lia.
  unfold deref. simpl. rewrite lookup_app_r by lia.
  replace (List.length (heap w1) - List.length (heap w1))%nat with 0%nat by lia.
  reflexivity.
Qed.

(** X16.  [add] on a file that loads with a numeric [next_id]: the run
    returns; the events of the file are kept and one event is appended, with
    the three arguments as title, date and time, the remaining arguments
    joined by single spaces as description (the empty string when there are
    none) and [next_id] as id; the file is written once and the last line
    printed reports the event. *)
Theorem main_add (argv : list string) (w : World) (manager : ScheduleManager)
    (w1 : World) (n' : pyval) :
  (5 <= List.length argv)%nat ->
  str_lower (arg argv 1) = "add" ->
  ScheduleManager_init data_file_default w = (Ok manager, w1) ->
  py_add1 (next_id manager) = Ok n' ->
  exists manager' w2,
    main argv w = (Returned tt, w2) /\
    manager' = mkManager data_file_default
                         (events manager ++ [List.length (heap w1)]) n' /\
    snapshot manager' w2 =
      snapshot manager w1 ++ [event_of_argv argv (next_id manager)] /\
    disk w2 = <[data_file_default := Document (saved manager' w2)]> (disk w) /\
    trace w2 =
      trace w1 ++
      [Write data_file_default (saved manager' w2);
       Print ("Event added successfully: " +:+
              Event_str (event_of_argv argv (next_id manager)))].
Proof.
  intros Hlen Hcmd Hinit Hn. eexists _, _.
  split; [apply (main_add_run argv w manager w1 n' Hlen Hcmd Hinit Hn)|].
  split; [reflexivity|]. split; [|split; reflexivity].
  cbv zeta. unfold snapshot, with_heap. simpl. rewrite map_app. simpl. f_equal.
  - apply map_ext_in. intros e He.
    pose proof (init_scoped _ _ _ _ Hinit) as Hscoped.
    rewrite Forall_forall in Hscoped. apply list_elem_of_In in He.
    apply deref_app_l. apply Hscoped. exact He.
  - unfold deref. simpl. rewrite lookup_app_r by lia.
    replace (List.length (heap w1) - List.length (heap w1))%nat with 0%nat by lia.
    reflexivity.
Qed.

(** X17.  [add] on a file that exists but does not parse: the load prints
    its warning and starts from the empty store, and the command then
    overwrites the file with a store that holds the new event alone, with
    id 1 and [next_id = 2].  What the file held is gone. *)
Theorem main_add_discards_unreadable_file (argv : list string) (w : World) :
  disk w !! data_file_default = Some Malformed ->
  (5 <= List.length argv)%nat ->
  str_lower (arg argv 1) = "add" ->
  exists w2,
    main argv w = (Returned tt, w2) /\
    disk w2 =
      <[data_file_default :=
          Document (PDict [("next_id", PInt 2);
                           ("events", PList [to_dict (event_of_argv argv (PInt 1))])])]>
        (disk w) /\
    trace w2 =
      trace w ++
      [warning data_file_default;
       Write data_file_default
             (PDict [("next_id", PInt 2);
                     ("events", PList [to_dict (event_of_argv argv (PInt 1))])]);
       Print ("Event added successfully: " +:+ Event_str (event_of_argv argv (PInt 1)))].
Proof.
  intros Hfile Hlen Hcmd. eexists. split.
  - apply (main_add_run argv w (empty_store data_file_default) _ (PInt 2) Hlen Hcmd
             (init_malformed data_file_default w Hfile) eq_refl).
  - cbv zeta. unfold saved, with_heap. simpl.
    replace (deref _ (List.length (heap w))) with (event_of_argv argv (PInt 1)).
    + rewrite <- app_assoc. split; reflexivity.
    + unfold deref. simpl. rewrite lookup_app_r by lia.
      replace (List.length (heap w) - List.length (heap w))%nat with 0%nat by lia.
      reflexivity.
Qed.

(** X18.  When the data file holds valid JSON whose top level is not a
    mapping, every run that names a command, [help] included, ends with an
    uncaught [AttributeError] (status 1) before it prints anything. *)
Theorem main_non_mapping_file (argv : list string) (w : World) (v : pyval) :
  (2 <= List.length argv)%nat ->
  disk w !! data_file_default = Some (Document v) ->
  is_dict v = false ->
  main argv w = (Raised AttributeError, w) /\
  exit_status (main argv w).1 = 1.
Proof.
  intros Hlen Hfile Hv.
  assert (H : main argv w = (Raised AttributeError, w)).
  { unfold main. rewrite (proj2 (Nat.ltb_ge _ _) Hlen).
    unfold pbind at 1, call at 1.
    rewrite (init_not_dict data_file_default w v Hfile Hv). reflexivity. }
  rewrite H. auto.
Qed.

(** X19.  [show], [update] and [delete] with an id they cannot use.  When
    [int] rejects the argument the run prints that the id must be a number;
    when no event of the store carries the id it prints that the event was
    not found.  Either way it exits with status 1, and [update] and [delete]
    have not touched the store. *)
Theorem main_unusable_id (argv : list string) (w : World)
    (manager : ScheduleManager) (w1 : World) :
  (3 <= List.length argv)%nat ->
  str_lower (arg argv 1) = "show" \/ str_lower (arg argv 1) = "update" \/
  str_lower (arg argv 1) = "delete" ->
  ScheduleManager_init data_file_default w = (Ok manager, w1) ->
  (int_of_str (arg argv 2) = None ->
   main argv w =
   (SystemExit 1,
    mkWorld (heap w1) (disk w1)
            (trace w1 ++ [Print "Error: Event ID must be a number"]))) /\
  (forall z,
      int_of_str (arg argv 2) = Some z ->
      Forall (fun e => has_id w1 z e = false) (events manager) ->
      main argv w =
      (SystemExit 1,
       mkWorld (heap w1) (disk w1)
               (trace w1 ++
                [Print ("Error: Event with ID " +:+ pretty z +:+ " not found")]))).
Proof.
  intros Hlen Hcmd Hinit.
  rewrite (main_after_init argv w manager w1) by (try exact Hinit; lia).
  cbv zeta. split.
  - intros Hint.
    destruct Hcmd as [Hc|[Hc|Hc]]; rewrite Hc;
      [change (cmd_show argv manager w1 =
               (SystemExit 1,
                mkWorld (heap w1) (disk w1)
                        (trace w1 ++ [Print "Error: Event ID must be a number"])));
       unfold cmd_show
      |change (cmd_update argv manager w1 =
               (SystemExit 1,
                mkWorld (heap w1) (disk w1)
                        (trace w1 ++ [Print "Error: Event ID must be a number"])));
       unfold cmd_update
      |change (cmd_delete argv manager w1 =
               (SystemExit 1,
                mkWorld (heap w1) (disk w1)
                        (trace w1 ++ [Print "Error: Event ID must be a number"])));
       unfold cmd_delete];
      rewrite (proj2 (Nat.ltb_ge _ _) Hlen);
      unfold except_ValueError, pbind at 1, py_int; rewrite Hint; reflexivity.
  - intros z Hint Hnone. apply get_event_loop_none in Hnone.
    destruct Hcmd as [Hc|[Hc|Hc]]; rewrite Hc.
    + change (cmd_show argv manager w1 =
              (SystemExit 1,
               mkWorld (heap w1) (disk w1)
                       (trace w1 ++
                        [Print ("Error: Event with ID " +:+ pretty z +:+ " not found")]))).
      unfold cmd_show. rewrite (proj2 (Nat.ltb_ge _ _) Hlen).
      unfold except_ValueError, pbind at 1, py_int. rewrite Hint.
      unfold pbind at 1, call at 1, get_event. rewrite Hnone. reflexivity.
    + change (cmd_update argv manager w1 =
              (SystemExit 1,
               mkWorld (heap w1) (disk w1)
                       (trace w1 ++
                        [Print ("Error: Event with ID " +:+ pretty z +:+ " not found")]))).
      unfold cmd_update. rewrite (proj2 (Nat.ltb_ge _ _) Hlen).
      unfold except_ValueError, pbind at 1, py_int. rewrite Hint.
      cbv zeta. unfold pbind at 1, call at 1.
      rewrite (update_event_missing manager w1 z _ _ _ _ Hnone). reflexivity.
    + change (cmd_delete argv manager w1 =
              (SystemExit 1,
               mkWorld (heap w1) (disk w1)
                       (trace w1 ++
                        [Print ("Error: Event with ID " +:+ pretty z +:+ " not found")]))).
      unfold cmd_delete. rewrite (proj2 (Nat.ltb_ge _ _) Hlen).
      unfold except_ValueError, pbind at 1, py_int. rewrite Hint.
      unfold pbind at 1, call at 1.
      rewrite (delete_event_missing manager w1 z Hnone). reflexivity.
Qed.

End CommandLineRuns.

(** ** Two runs in a row *)

Lemma reload_saved path w self w0 :
  disk w !! path = Some (Document (saved self w0)) ->
  ScheduleManager_init path w =
  (Ok (mkManager path (seq (List.length (heap w)) (List.length (events self)))
                 (next_id self)),
   mkWorld (heap w ++ map (deref w0) (events self)) (disk w) (trace w)).
Proof.
  intros H.
  rewrite (init_document path w
             [("next_id", next_id self);
              ("events", PList (map to_dict (map (deref w0) (events self))))]
             (map to_dict (map (deref w0) (events self)))
             (map (deref w0) (events self)) H).
  - simpl. rewrite length_map. reflexivity.
  - reflexivity.
  - induction (map (deref w0) (events self)) as [|e es IH]; simpl; constructor.
    + apply event_of_to_dict.
    + exact IH.
Qed.

Lemma no_id_in_snapshot w z evs :
  Forall (fun e => py_eq (id e) (PInt z) = false) (map (deref w) evs) ->
  Forall (fun e => has_id w z e = false) evs.
Proof.
  induction evs as [|e evs IH]; simpl; intros H; [constructor|].
  inversion H; subst. constructor; [assumption|apply IH; assumption].
Qed.

Lemma get_event_loop_fresh h es d t z :
  Forall (fun e => py_eq (id e) (PInt z) = false) es ->
  get_event_loop (mkWorld (h ++ es) d t) z (seq (List.length h) (List.length es)) = None.
Proof.
  intros Hes. apply get_event_loop_none. apply no_id_in_snapshot.
  rewrite map_deref_fresh. exact Hes.
Qed.

Section TwoRuns.
Context {python : Builtins}.

(** X20.  Through the file, from one run to the next: on a file that loads
    into a store satisfying the invariant, a [delete] of an id that is there
    returns with status 0, and a [show] of the same id run afterwards, on
    what the first run has left, finds no such event and exits with
    status 1 without writing. *)
Theorem main_delete_then_show (argv argv' : list string) (w : World)
    (manager : ScheduleManager) (w1 : World) (z : Z) :
  (3 <= List.length argv)%nat ->
  str_lower (arg argv 1) = "delete" ->
  int_of_str (arg argv 2) = Some z ->
  (3 <= List.length argv')%nat ->
  str_lower (arg argv' 1) = "show" ->
  int_of_str (arg argv' 2) = Some z ->
  ScheduleManager_init data_file_default w = (Ok manager, w1) ->
  store_inv manager w1 ->
  Exists (fun e => has_id w1 z e = true) (events manager) ->
  exists w2 w3,
    main argv w = (Returned tt, w2) /\
    main argv' w2 = (SystemExit 1, w3) /\
    disk w3 = disk w2 /\
    trace w3 =
      trace w2 ++ [Print ("Error: Event with ID " +:+ pretty z +:+ " not found")].
Proof.
  intros Hlen Hcmd Hint Hlen' Hcmd' Hint' Hinit Hinv Hex.
  pose proof (init_data_file _ _ _ _ Hinit) as Hfile.
  destruct (get_event_loop_found _ _ _ Hex) as [event Hg].
  apply get_event_loop_some in Hg as (pre & post & Hev & Hpre & Hid).
  pose proof (inv_unique manager w1 z pre event post Hinv Hev Hid) as Hrest.
  set (manager' := set_events (pre ++ post) manager).
  set (w2 := mkWorld (heap w1)
                     (<[data_file_default := Document (saved manager' w1)]> (disk w1))
                     (trace w1 ++
                      [Write data_file_default (saved manager' w1);
                       Print ("Event " +:+ pretty z +:+ " deleted successfully")])).
  assert (Hrun : main argv w = (Returned tt, w2)).
  { rewrite (main_after_init argv w manager w1) by (try exact Hinit; lia).
    cbv zeta. rewrite Hcmd.
    change (cmd_delete argv manager w1 = (Returned tt, w2)).
    unfold cmd_delete. rewrite (proj2 (Nat.ltb_ge _ _) Hlen).
    unfold except_ValueError, pbind at 1, py_int. rewrite Hint.
    unfold pbind at 1, call at 1.
    rewrite (delete_event_found manager w1 z pre event post Hev Hpre Hid).
    unfold w2, manager', say, call, print, persist. simpl.
    rewrite Hfile, <- app_assoc. reflexivity. }
  set (manager2 := mkManager data_file_default
                      (seq (List.length (heap w2)) (List.length (events manager')))
                      (next_id manager')).
  assert (Hload : ScheduleManager_init data_file_default w2 =
                  (Ok manager2,
                   mkWorld (heap w2 ++ map (deref w1) (events manager'))
                           (disk w2) (trace w2))).
  { apply reload_saved. unfold w2. simpl. apply lookup_insert_eq. }
  assert (Hlen'' : (2 <= List.length argv')%nat) by lia.
  exists w2. eexists. split; [exact Hrun|].
  pose proof (main_after_init argv' w2 _ _ Hlen'' Hload) as Hmain2.
  rewrite Hmain2. clear Hmain2.
  cbv zeta. rewrite Hcmd'.
  match goal with
  | |- ?c ?w0 = _ /\ _ => change (c w0) with (cmd_show argv' manager2 w0)
  end.
  unfold cmd_show. rewrite (proj2 (Nat.ltb_ge _ _) Hlen').
  unfold except_ValueError, pbind at 1, py_int. rewrite Hint'.
  unfold pbind at 1, call at 1, get_event.
  unfold manager2. cbn [events].
  rewrite <- (length_map (deref w1) (events manager')).
  rewrite get_event_loop_fresh.
  - split; [reflexivity|]. split; reflexivity.
  - unfold manager'. simpl. clear - Hrest.
    induction Hrest as [|e l He _ IH]; simpl; constructor; [exact He|exact IH].
Qed.

End TwoRuns.

(** ** Runs on examples *)


Lemma main_read_only_commands_witness :
  disk (@main sample_builtins ["schedule_cli.py"; "LIST"] one_event_file).2 =
    disk one_event_file /\
  List.filter is_Write
    (trace (@main sample_builtins ["schedule_cli.py"; "LIST"] one_event_file).2) =
  List.filter is_Write (trace one_event_file).
Proof.
  refine (@main_read_only_commands sample_builtins
            ["schedule_cli.py"; "LIST"] one_event_file _).
  right. repeat split; intros H; vm_compute in H; discriminate.
Defined.

Lemma main_add_witness :
  exists manager' w2,
    @main sample_builtins
      ["schedule_cli.py"; "add"; "Team Meeting"; "2026-01-15"; "14:00"; "Discuss"; "Q1"]
      no_file = (Returned tt, w2) /\
    snapshot manager' w2 =
      [mkEvent (PStr "Team Meeting") (PStr "2026-01-15") (PStr "14:00")
               (PStr "Discuss Q1") (PInt 1)].
Proof.
  destruct (@main_add sample_builtins
              ["schedule_cli.py"; "add"; "Team Meeting"; "2026-01-15"; "14:00";
               "Discuss"; "Q1"]
              no_file (empty_store data_file_default) no_file (PInt 2))
    as (manager' & w2 & Hmain & _ & Hsnap & _).
  - simpl. lia.
  - reflexivity.
  - reflexivity.
  - reflexivity.
  - exists manager', w2. split; [exact Hmain|exact Hsnap].
Defined.

Lemma main_add_discards_unreadable_file_witness :
  exists w2,
    @main sample_builtins
      ["schedule_cli.py"; "add"; "Team Meeting"; "2026-01-15"; "14:00"]
      unreadable_file = (Returned tt, w2) /\
    disk w2 !! data_file_default =
      Some (Document
              (PDict [("next_id", PInt 2);
                      ("events",
                       PList [PDict [("id", PInt 1); ("title", PStr "Team Meeting");
                                     ("date", PStr "2026-01-15");
                                     ("time", PStr "14:00");
                                     ("description", PStr "")]])])).
Proof.
  destruct (@main_add_discards_unreadable_file sample_builtins
              ["schedule_cli.py"; "add"; "Team Meeting"; "2026-01-15"; "14:00"]
              unreadable_file)
    as (w2 & Hmain & Hdisk & _).
  - reflexivity.
  - simpl. lia.
  - reflexivity.
  - exists w2. split; [exact Hmain|]. rewrite Hdisk. apply lookup_insert_eq.
Defined.

Lemma main_non_mapping_file_witness :
  @main sample_builtins ["schedule_cli.py"; "help"] list_file =
    (Raised AttributeError, list_file) /\
  exit_status (@main sample_builtins ["schedule_cli.py"; "help"] list_file).1 = 1.
Proof.
  refine (@main_non_mapping_file sample_builtins ["schedule_cli.py"; "help"] list_file
            (PList []) _ _ _).
  - simpl. lia.
  - reflexivity.
  - reflexivity.
Defined.

Lemma main_unusable_id_witness :
  @main sample_builtins ["schedule_cli.py"; "delete"; "abc"] no_file =
  (SystemExit 1, mkWorld [] ∅ [Print "Error: Event ID must be a number"]) /\
  @main sample_builtins ["schedule_cli.py"; "update"; "7"; "--title"; "B"] no_file =
  (SystemExit 1, mkWorld [] ∅ [Print "Error: Event with ID 7 not found"]).
Proof.
  split.
  - refine (proj1 (@main_unusable_id sample_builtins
                     ["schedule_cli.py"; "delete"; "abc"] no_file
                     (empty_store data_file_default) no_file _ _ _) _).
    + simpl. lia.
    + right; right. reflexivity.
    + reflexivity.
    + reflexivity.
  - refine (proj2 (@main_unusable_id sample_builtins
                     ["schedule_cli.py"; "update"; "7"; "--title"; "B"] no_file
                     (empty_store data_file_default) no_file _ _ _) 7 _ _).
    + simpl. lia.
    + right; left. reflexivity.
    + reflexivity.
    + reflexivity.
    + constructor.
Defined.

Lemma main_delete_then_show_witness :
  exists w2 w3,
    @main sample_builtins ["schedule_cli.py"; "delete"; "1"] one_event_file =
      (Returned tt, w2) /\
    @main sample_builtins ["schedule_cli.py"; "show"; "1"] w2 = (SystemExit 1, w3) /\
    disk w3 = disk w2 /\
    trace w3 = trace w2 ++ [Print "Error: Event with ID 1 not found"].
Proof.
  refine (@main_delete_then_show sample_builtins
            ["schedule_cli.py"; "delete"; "1"] ["schedule_cli.py"; "show"; "1"]
            one_event_file
            (mkManager data_file_default [0%nat] (PInt 2))
            (mkWorld [mkEvent (PStr "A") (PStr "2026-01-15") (PStr "14:00") (PStr "")
                              (PInt 1)]
                     (disk one_event_file) [])
            1 _ _ _ _ _ _ _ _ _).
  - simpl. lia.
  - reflexivity.
  - reflexivity.
  - simpl. lia.
  - reflexivity.
  - reflexivity.
  - reflexivity.
  - exists 2, [1]. split; [reflexivity|]. split; [reflexivity|].
    split; [apply NoDup_singleton|]. constructor; [lia|constructor].
  - constructor. reflexivity.
Defined.

Section Listing.
Context {python : Builtins}.

Lemma each_lines (l : list loc) : forall w,
  (fix each (l : list loc) : Proc unit :=
     match l with
     | [] => say rule
     | event :: l' => say_event "" event ;!; each l'
     end) l w =
  (Returned tt,
   mkWorld (heap w) (disk w)
           (trace w ++ map Print (map (fun e => Event_str (deref w e)) l ++ [rule]))).
Proof.
  induction l as [|e l IH]; intros w.
  - reflexivity.
  - unfold pbind at 1, say_event, say, call, print. cbv beta iota.
    rewrite IH. simpl. rewrite <- app_assoc. reflexivity.
Qed.

(** X21.  What [list] prints.  When the store loads and the listing
    succeeds, the run returns and prints, for an empty result, the one line
    that says so; otherwise a header with the number of events found, a
    rule, one line per event in the order [list_events] returned them, and
    a rule.  The optional argument is passed as date filter as it is. *)
Theorem main_list_output (argv : list string) (w : World)
    (manager : ScheduleManager) (w1 : World) (found : list loc) :
  (2 <= List.length argv)%nat ->
  str_lower (arg argv 1) = "list" ->
  ScheduleManager_init data_file_default w = (Ok manager, w1) ->
  list_events manager
    (if Nat.ltb 2 (List.length argv) then Some (arg argv 2) else None) w1 =
    (Ok found, w1) ->
  main argv w =
  (Returned tt,
   mkWorld (heap w1) (disk w1) (trace w1 ++ map Print (listing_lines w1 found))).
Proof.
  intros Hlen Hcmd Hinit Hlist.
  rewrite (main_after_init argv w manager w1 Hlen Hinit).
  cbv zeta. rewrite Hcmd.
  change (cmd_list argv manager w1 =
          (Returned tt,
           mkWorld (heap w1) (disk w1)
                   (trace w1 ++ map Print (listing_lines w1 found)))).
  unfold cmd_list. cbv zeta. unfold pbind at 1, call at 1. rewrite Hlist.
  destruct found as [|e found]; [reflexivity|].
  unfold pbind at 1, say at 1, call at 1, print at 1. cbv beta iota.
  unfold pbind at 1, say at 1, call at 1, print at 1. cbv beta iota.
  refine (eq_trans (each_lines (e :: found) _) _).
  unfold listing_lines. simpl. rewrite <- !app_assoc. reflexivity.
Qed.

End Listing.

Lemma main_list_output_witness :
  @main sample_builtins ["schedule_cli.py"; "list"; "2026-01-16"] one_event_file =
  (Returned tt,
   mkWorld [mkEvent (PStr "A") (PStr "2026-01-15") (PStr "14:00") (PStr "") (PInt 1)]
           (disk one_event_file) [Print "No events found"]).
Proof.
  refine (@main_list_output sample_builtins
            ["schedule_cli.py"; "list"; "2026-01-16"] one_event_file
            (mkManager data_file_default [0%nat] (PInt 2))
            (mkWorld [mkEvent (PStr "A") (PStr "2026-01-15") (PStr "14:00") (PStr "")
                              (PInt 1)]
                     (disk one_event_file) [])
            [] _ _ _ _).
  - simpl. lia.
  - reflexivity.
  - reflexivity.
  - reflexivity.
Defined.

Lemma event_dict_roundtrip_witness :
  deref (with_heap (heap one_event_file ++
                    [mkEvent (PStr "A") PNone (PInt 3) (PList []) (PStr "x")])
                   one_event_file) 0%nat =
  mkEvent (PStr "A") PNone (PInt 3) (PList []) (PStr "x").
Proof.
  exact (proj1 (proj2 (event_dict_roundtrip
                         (mkEvent (PStr "A") PNone (PInt 3) (PList []) (PStr "x"))
                         one_event_file))).
Defined.
